(** * lc3as.py: a shallow embedding of the LC-3 assembler and its checked properties

    The development follows the pipeline of [lc3as.py]:
    lexer ([lex_line], [lex]), parser ([parse_line], [parse]), pass 1
    ([size_of_ins], [make_symbol_table]) and pass 2 ([generate_*],
    [assemble_statement], [assemble]).

    Python integers are [Z]; Python [str] is [string] (8-bit code units);
    the dictionaries with dot syntax ([Obj]) are records whose fields are
    optional, an absent key being [None] and its access raising [KeyError];
    the symbol table is a [gmap string Z]; exceptions are the [Raise] case
    of the [Result] monad. *)

From Stdlib Require Import ZArith List String Ascii Bool Lia DecimalString.
From stdpp Require Import base gmap strings.

Local Open Scope Z_scope.

(** ** Python exceptions and the error monad *)

Inductive PyError : Type :=
| Exception (msg : string)
| KeyError (key : string)
| ValueError (msg : string)
| TypeError (msg : string)
| SyntaxError (msg : string)
| IndexError
| AssertionError
| UnboundLocalError (name : string).

Inductive Result (A : Type) : Type :=
| Ok (a : A)
| Raise (e : PyError).

Arguments Ok {A} a.
Arguments Raise {A} e.

Definition bind {A B : Type} (m : Result A) (k : A -> Result B) : Result B :=
  match m with
  | Ok a => k a
  | Raise e => Raise e
  end.

Notation "x <- m ;; k" := (bind m (fun x => k))
  (at level 100, m at next level, right associativity).

(** [obj.key] on an [Obj]: [__getattr__] is [self[key]], which raises
    [KeyError] when the key is absent. *)
Definition getattr {A : Type} (key : string) (field : option A) : Result A :=
  match field with
  | Some v => Ok v
  | None => Raise (KeyError key)
  end.

(** [l[i]] on a Python list. *)
Definition py_index {A : Type} (l : list A) (i : nat) : Result A :=
  match nth_error l i with
  | Some v => Ok v
  | None => Raise IndexError
  end.

(** ** Python string primitives used by the source *)

Definition ord (c : ascii) : Z := Z.of_N (N_of_ascii c).

Definition in_range (lo hi c : ascii) : bool :=
  (ord lo <=? ord c) && (ord c <=? ord hi).

Definition is_digit (c : ascii) : bool := in_range "0" "9" c.
Definition is_lower (c : ascii) : bool := in_range "a" "z" c.
Definition is_upper (c : ascii) : bool := in_range "A" "Z" c.
Definition is_alpha (c : ascii) : bool := is_lower c || is_upper c.
Definition is_hexdigit (c : ascii) : bool :=
  is_digit c || in_range "a" "f" c || in_range "A" "F" c.

(** [\s] of the [re] module as Python 2 and Python 3 share it: space, TAB,
    LF, VT, FF, CR.  (Python 3 adds the separators 28 to 31 and the
    non-ASCII spaces.) *)
Definition is_space (c : ascii) : bool :=
  (ord c =? 32) || ((9 <=? ord c) && (ord c <=? 13)).

Definition upper_char (c : ascii) : ascii :=
  if is_lower c then ascii_of_N (N_of_ascii c - 32) else c.
Definition lower_char (c : ascii) : ascii :=
  if is_upper c then ascii_of_N (N_of_ascii c + 32) else c.

Fixpoint str_map (f : ascii -> ascii) (s : string) : string :=
  match s with
  | EmptyString => EmptyString
  | String c rest => String (f c) (str_map f rest)
  end.

(** [s.upper()] and [s.lower()] (ASCII letters). *)
Definition upper (s : string) : string := str_map upper_char s.
Definition lower (s : string) : string := str_map lower_char s.

Definition len (s : string) : Z := Z.of_nat (String.length s).

Fixpoint char_in (c : ascii) (chars : string) : bool :=
  match chars with
  | EmptyString => false
  | String d rest => Ascii.eqb c d || char_in c rest
  end.

(** [s.lstrip(chars)]: drops every leading character that belongs to the
    SET [chars]; it does not remove a prefix. *)
Fixpoint lstrip (chars : string) (s : string) : string :=
  match s with
  | EmptyString => EmptyString
  | String c rest => if char_in c chars then lstrip chars rest else s
  end.

(** [s.rstrip(chars)]. *)
Fixpoint rstrip (chars : string) (s : string) : string :=
  match s with
  | EmptyString => EmptyString
  | String c rest =>
      match rstrip chars rest with
      | EmptyString => if char_in c chars then EmptyString else String c EmptyString
      | kept => String c kept
      end
  end.

(** [s.rstrip()]: trailing whitespace removed. *)
Fixpoint rstrip_space (s : string) : string :=
  match s with
  | EmptyString => EmptyString
  | String c rest =>
      match rstrip_space rest with
      | EmptyString => if is_space c then EmptyString else String c EmptyString
      | kept => String c kept
      end
  end.

(** [s.startswith(p)]. *)
Fixpoint startswith (p s : string) : bool :=
  match p, s with
  | EmptyString, _ => true
  | String a p', String b s' => Ascii.eqb a b && startswith p' s'
  | String _ _, EmptyString => false
  end.

(** [sub in s] on strings. *)
Fixpoint contains (sub s : string) : bool :=
  startswith sub s ||
  match s with
  | EmptyString => false
  | String _ rest => contains sub rest
  end.

(** [s[n:]]. *)
Fixpoint drop_chars (n : nat) (s : string) : string :=
  match n, s with
  | O, _ => s
  | S n', String _ rest => drop_chars n' rest
  | S _, EmptyString => EmptyString
  end.

(** [s[:n]]. *)
Fixpoint take_chars (n : nat) (s : string) : string :=
  match n, s with
  | O, _ => EmptyString
  | S n', String c rest => String c (take_chars n' rest)
  | S _, EmptyString => EmptyString
  end.

(** ["%s" % n] for an integer [n]. *)
Definition str_of_int (n : Z) : string := NilZero.string_of_int (Z.to_int n).

Definition digit_value (c : ascii) : option Z :=
  if is_digit c then Some (ord c - 48)
  else if is_lower c then Some (ord c - 97 + 10)
  else if is_upper c then Some (ord c - 65 + 10)
  else None.

Fixpoint parse_digits (base : Z) (s : string) (acc : Z) : option Z :=
  match s with
  | EmptyString => Some acc
  | String c rest =>
      match digit_value c with
      | Some d => if d <? base then parse_digits base rest (acc * base + d) else None
      | None => None
      end
  end.

(** [int(s, base)] on the texts the lexer passes: an optional sign and
    digits of the base.  An empty digit string is a [ValueError], as is any
    foreign character. *)
Definition py_int (s : string) (base : Z) : Result Z :=
  let invalid :=
    ValueError ("invalid literal for int() with base " +:+ str_of_int base +:+ ": '" +:+ s +:+ "'") in
  let '(sign, body) :=
    match s with
    | String "-" rest => (-1, rest)
    | String "+" rest => (1, rest)
    | _ => (1, s)
    end in
  match body with
  | EmptyString => Raise invalid
  | _ =>
      match parse_digits base body 0 with
      | Some v => Ok (sign * v)
      | None => Raise invalid
      end
  end.

(** A Python value stored under the key [value]: an [int] (NUMBER and HEX
    tokens, [.FILL]) or a [str] (STRING tokens, [.STRINGZ]). *)
Inductive PyVal : Type :=
| VInt (n : Z)
| VStr (s : string).

(** [len(v)]: defined on [str], a [TypeError] on [int]. *)
Definition py_len (v : PyVal) : Result Z :=
  match v with
  | VStr s => Ok (len s)
  | VInt _ => Raise (TypeError "object of type 'int' has no len()")
  end.

(** [v] used where the source needs an [int] (comparisons with integers). *)
Definition as_int (v : PyVal) : Result Z :=
  match v with
  | VInt n => Ok n
  | VStr _ => Raise (TypeError "'<' not supported between instances of 'str' and 'int'")
  end.

(** [x in [a, b, ...]] on strings. *)
Fixpoint str_in (x : string) (l : list string) : bool :=
  match l with
  | [] => false
  | y :: rest => String.eqb x y || str_in x rest
  end.

Definition dquote : ascii := "034"%char.
Definition backslash : ascii := "092"%char.

(** ** The data model: tokens, operands and statements

    Each is an [Obj] in the source.  The key [type] ('TOKEN', 'OPERAND',
    'STATEMENT') is written and never read, so it is left out. *)

Module Token.
Record t : Type := Build {
  token_type : string;
  text : string;
  value : option PyVal
}.
End Token.

Module Operand.
Record t : Type := Build {
  operand_type : string;
  name : option string;
  value : option Z
}.
End Operand.

Module Statement.
Record t : Type := Build {
  statement_type : string;
  directive_type : option string;
  label_name : option string;
  address : option Z;
  value : option PyVal;
  label : option string;
  size : option Z;
  instruction : option string;
  operands : option (list Operand.t)
}.
End Statement.

(** ** The lexer

    Each entry of [token_patterns] is a regular expression that
    [regex.match(line, i)] anchors at position [i]; here a pattern is a
    function from the suffix [line[i:]] to the matched text [m.group(0)]. *)

Fixpoint span (p : ascii -> bool) (s : string) : string :=
  match s with
  | String c rest => if p c then String c (span p rest) else EmptyString
  | EmptyString => EmptyString
  end.

(** [[class]+] *)
Definition match_plus (p : ascii -> bool) (s : string) : option string :=
  match span p s with
  | EmptyString => None
  | text => Some text
  end.

(** ['WS': [\s,]+] *)
Definition match_WS (s : string) : option string :=
  match_plus (fun c => is_space c || Ascii.eqb c ",") s.

(** ['COMMENT': ;.*] (with [re.DOTALL]) *)
Definition match_COMMENT (s : string) : option string :=
  match s with
  | String ";" _ => Some s
  | _ => None
  end.

(** ['HEX': 0?x[0-9a-fA-F]+] *)
Definition match_HEX (s : string) : option string :=
  match s with
  | String "0" (String "x" rest) =>
      match match_plus is_hexdigit rest with
      | Some digits => Some ("0x" +:+ digits)
      | None => None
      end
  | String "x" rest =>
      match match_plus is_hexdigit rest with
      | Some digits => Some ("x" +:+ digits)
      | None => None
      end
  | _ => None
  end.

(** ['NUMBER': #?-?[0-9]+] *)
Definition match_NUMBER (s : string) : option string :=
  let '(hash, s1) :=
    match s with
    | String "#" rest => ("#", rest)
    | _ => (EmptyString, s)
    end in
  let '(minus, s2) :=
    match s1 with
    | String "-" rest => ("-", rest)
    | _ => (EmptyString, s1)
    end in
  match match_plus is_digit s2 with
  | Some digits => Some (hash +:+ minus +:+ digits)
  | None => None
  end.

(** ['STRING']: an opening double quote, then any run of either a
    character other than the double quote and the backslash, or a backslash
    followed by any one character, then a closing double quote.
    [match_string_body] is the part after the opening quote. *)
Fixpoint match_string_body (s : string) : option string :=
  match s with
  | EmptyString => None
  | String c rest =>
      if Ascii.eqb c dquote then Some (String c EmptyString)
      else if Ascii.eqb c backslash then
        match rest with
        | String d rest' =>
            match match_string_body rest' with
            | Some body => Some (String c (String d body))
            | None => None
            end
        | EmptyString => None
        end
      else
        match match_string_body rest with
        | Some body => Some (String c body)
        | None => None
        end
  end.

Definition match_STRING (s : string) : option string :=
  match s with
  | String c rest =>
      if Ascii.eqb c dquote then
        match match_string_body rest with
        | Some body => Some (String c body)
        | None => None
        end
      else None
  | EmptyString => None
  end.

(** A literal under [(?i)]. *)
Definition match_literal_ci (lit : string) (s : string) : option string :=
  let text := take_chars (String.length lit) s in
  if String.eqb (upper text) (upper lit) then Some text else None.

(** An optional letter under [(?i)], as [n?]. *)
Definition match_opt_ci (c : ascii) (s : string) : string :=
  match s with
  | String d _ => if Ascii.eqb (upper_char d) (upper_char c) then String d EmptyString else EmptyString
  | EmptyString => EmptyString
  end.

(** [BRn?z?p?] under [(?i)]. *)
Definition match_BR (s : string) : option string :=
  match match_literal_ci "BR" s with
  | None => None
  | Some br =>
      let s1 := drop_chars 2 s in
      let n := match_opt_ci "n" s1 in
      let s2 := drop_chars (String.length n) s1 in
      let z := match_opt_ci "z" s2 in
      let s3 := drop_chars (String.length z) s2 in
      let p := match_opt_ci "p" s3 in
      Some (br +:+ n +:+ z +:+ p)
  end.

(** An alternation [a|b|...]: the first alternative that matches wins. *)
Fixpoint match_alt (alts : list (string -> option string)) (s : string) : option string :=
  match alts with
  | [] => None
  | alt :: rest =>
      match alt s with
      | Some text => Some text
      | None => match_alt rest s
      end
  end.

(** ['OPCODE'] *)
Definition match_OPCODE (s : string) : option string :=
  match_alt
    [ match_literal_ci "ADD"; match_literal_ci "AND"; match_BR;
      match_literal_ci "JMP"; match_literal_ci "JSRR"; match_literal_ci "JSR";
      match_literal_ci "LDI"; match_literal_ci "LDR"; match_literal_ci "LD";
      match_literal_ci "LEA"; match_literal_ci "NOT"; match_literal_ci "RET";
      match_literal_ci "RTI"; match_literal_ci "STI"; match_literal_ci "STR";
      match_literal_ci "ST"; match_literal_ci "TRAP" ] s.

(** ['DIRECTIVE'] *)
Definition match_DIRECTIVE (s : string) : option string :=
  match_alt
    [ match_literal_ci ".ORIG"; match_literal_ci ".END"; match_literal_ci ".FILL";
      match_literal_ci ".BLKW"; match_literal_ci ".STRINGZ" ] s.

(** ['REGISTER': [rR][0-6]] *)
Definition match_REGISTER (s : string) : option string :=
  match s with
  | String r (String d _) =>
      if (Ascii.eqb r "r" || Ascii.eqb r "R") && in_range "0" "6" d
      then Some (String r (String d EmptyString))
      else None
  | _ => None
  end.

Definition is_label_char (c : ascii) : bool :=
  is_alpha c || is_digit c || Ascii.eqb c "_" || Ascii.eqb c "-".

(** ['LABEL': [a-zA-Z0-9_-]+:] *)
Definition match_LABEL (s : string) : option string :=
  match match_plus is_label_char s with
  | Some run =>
      match drop_chars (String.length run) s with
      | String ":" _ => Some (run +:+ ":")
      | _ => None
      end
  | None => None
  end.

(** ['IDENTIFIER': [a-zA-Z_][a-zA-Z0-9_-]*] *)
Definition match_IDENTIFIER (s : string) : option string :=
  match s with
  | String c rest =>
      if is_alpha c || Ascii.eqb c "_" then Some (String c (span is_label_char rest))
      else None
  | EmptyString => None
  end.

Definition token_patterns : list (string * (string -> option string)) :=
  [ ("WS", match_WS);
    ("COMMENT", match_COMMENT);
    ("HEX", match_HEX);
    ("NUMBER", match_NUMBER);
    ("STRING", match_STRING);
    ("OPCODE", match_OPCODE);
    ("DIRECTIVE", match_DIRECTIVE);
    ("REGISTER", match_REGISTER);
    ("LABEL", match_LABEL);
    ("IDENTIFIER", match_IDENTIFIER) ].

(** The inner [for token_type, regex in token_patterns] loop up to its
    [break]: the first pattern that matches, with the matched text. *)
Fixpoint first_pattern (patterns : list (string * (string -> option string)))
    (s : string) : option (string * string) :=
  match patterns with
  | [] => None
  | (token_type, regex) :: rest =>
      match regex s with
      | Some text => Some (token_type, text)
      | None => first_pattern rest s
      end
  end.

Section Lexer.

(** [ast.literal_eval] of the Python library, applied to the text of a
    STRING token (a double-quoted literal): its decoded payload, or an
    exception for a malformed escape. *)
Variable literal_eval : string -> Result string.

(** The body of the inner loop once a pattern matched: the token and
    its [value]. *)
Definition make_token (token_type text : string) : Result Token.t :=
  if String.eqb token_type "NUMBER" then
    v <- py_int (lstrip "#" text) 10;;
    Ok (Token.Build token_type text (Some (VInt v)))
  else if String.eqb token_type "HEX" then
    v <- py_int (lstrip "0x" text) 16;;
    Ok (Token.Build token_type text (Some (VInt v)))
  else if String.eqb token_type "STRING" then
    v <- literal_eval text;;
    Ok (Token.Build token_type text (Some (VStr v)))
  else
    Ok (Token.Build token_type text None).

(** The [while i < len(line)] loop.  [s] is [line[i':]] for the position
    [i'] the recursion stands at and [skip] is [i - i']: the characters
    of the last token still to step over.  At [skip = 0] the position is
    [i] and the patterns are tried on [line[i:]]; [i += len(text)]
    becomes a skip of the rest of the text. *)
Fixpoint lex_loop (line : string) (s : string) (skip : nat)
    (tokens : list Token.t) : Result (list Token.t) :=
  match s with
  | EmptyString => Ok tokens
  | String _ rest =>
      match skip with
      | S k => lex_loop line rest k tokens
      | O =>
          match first_pattern token_patterns s with
          | None => Raise (Exception ("Cannot lex '" +:+ rstrip_space line +:+ "'"))
          | Some (token_type, text) =>
              token <- make_token token_type text;;
              lex_loop line rest (String.length text - 1) (tokens ++ [token])
          end
      end
  end.

Definition lex_line (line : string) : Result (list Token.t) :=
  lex_loop line line 0 [].

(** [[lex_line(line) for line in lines]] *)
Fixpoint lex (lines : list string) : Result (list (list Token.t)) :=
  match lines with
  | [] => Ok []
  | line :: rest =>
      tokens <- lex_line line;;
      lexed <- lex rest;;
      Ok (tokens :: lexed)
  end.

End Lexer.

(** ** The parser: operand parsers

    A parser that fails returns [None]; it raises only where a Python
    primitive does. *)

Definition parse_operand_label (token : Token.t) : option Operand.t :=
  if String.eqb (Token.token_type token) "IDENTIFIER"
  then Some (Operand.Build "LABEL" (Some (Token.text token)) None)
  else None.

Definition parse_operand_register (token : Token.t) : Result (option Operand.t) :=
  if String.eqb (Token.token_type token) "REGISTER" then
    v <- py_int (drop_chars 1 (Token.text token)) 10;;
    Ok (Some (Operand.Build "REGISTER" (Some (upper (Token.text token))) (Some v)))
  else Ok None.

(** The three immediate parsers differ in their bounds only. *)
Definition parse_operand_immediate (lo hi : Z) (token : Token.t) : Result (option Operand.t) :=
  if str_in (Token.token_type token) ["NUMBER"; "HEX"] then
    pv <- getattr "value" (Token.value token);;
    v <- as_int pv;;
    if (v <? lo) || (v >? hi) then Ok None
    else Ok (Some (Operand.Build "IMMEDIATE" None (Some v)))
  else Ok None.

Definition parse_operand_int5 : Token.t -> Result (option Operand.t) :=
  parse_operand_immediate (-16) 15.
Definition parse_operand_int6 : Token.t -> Result (option Operand.t) :=
  parse_operand_immediate (-32) 31.
Definition parse_operand_uint8 : Token.t -> Result (option Operand.t) :=
  parse_operand_immediate 0 255.

(** Combinations of operand parsers: the token count is checked first,
    then each operand in turn, the first failure ending the attempt. *)
Fixpoint parse_each (parsers : list (Token.t -> Result (option Operand.t)))
    (tokens : list Token.t) : Result (option (list Operand.t)) :=
  match parsers, tokens with
  | [], _ => Ok (Some [])
  | p :: parsers', token :: tokens' =>
      op <- p token;;
      match op with
      | None => Ok None
      | Some op =>
          ops <- parse_each parsers' tokens';;
          match ops with
          | None => Ok None
          | Some ops => Ok (Some (op :: ops))
          end
      end
  | _ :: _, [] => Raise IndexError
  end.

Definition parse_operands (parsers : list (Token.t -> Result (option Operand.t)))
    (tokens : list Token.t) : Result (option (list Operand.t)) :=
  if negb (Nat.eqb (length tokens) (length parsers)) then Ok None
  else parse_each parsers tokens.

Definition label_parser (token : Token.t) : Result (option Operand.t) :=
  Ok (parse_operand_label token).

Definition parse_operands_LABEL := parse_operands [label_parser].
Definition parse_operands_BaseR := parse_operands [parse_operand_register].
Definition parse_operands_DR_LABEL := parse_operands [parse_operand_register; label_parser].
Definition parse_operands_SR_LABEL := parse_operands_DR_LABEL.
Definition parse_operands_DR_SR := parse_operands [parse_operand_register; parse_operand_register].
Definition parse_operands_DR_SR1_SR2 :=
  parse_operands [parse_operand_register; parse_operand_register; parse_operand_register].
Definition parse_operands_DR_SR1_imm5 :=
  parse_operands [parse_operand_register; parse_operand_register; parse_operand_int5].
Definition parse_operands_DR_BaseR_offset6 :=
  parse_operands [parse_operand_register; parse_operand_register; parse_operand_int6].
Definition parse_operands_SR_BaseR_offset6 := parse_operands_DR_BaseR_offset6.
Definition parse_operands_trapvector8 := parse_operands [parse_operand_uint8].

(** ** The parser: instructions *)

(** The statement [Obj] an instruction parser builds before it looks at the
    operands. *)
Definition instruction_statement (instruction : string)
    (operands : option (list Operand.t)) : Statement.t :=
  Statement.Build "INSTRUCTION" None None None None None None (Some instruction) operands.

(** [tokens[0]] after [assert len(tokens) > 0]. *)
Definition first_token (tokens : list Token.t) : Result Token.t :=
  match tokens with
  | [] => Raise AssertionError
  | token1 :: _ => Ok token1
  end.

(** [operands = shape(tokens[1:]); if operands: ...] for each shape in
    turn: a [None] and an empty list are both falsy. *)
Fixpoint try_shapes (instruction : string)
    (shapes : list (list Token.t -> Result (option (list Operand.t))))
    (tokens : list Token.t) : Result (option Statement.t) :=
  match shapes with
  | [] => Ok None
  | shape :: shapes' =>
      operands <- shape (tl tokens);;
      match operands with
      | Some (op :: ops) => Ok (Some (instruction_statement instruction (Some (op :: ops))))
      | _ => try_shapes instruction shapes' tokens
      end
  end.

(** The common body of the instruction parsers that take operands. *)
Definition parse_ins (instruction : string)
    (shapes : list (list Token.t -> Result (option (list Operand.t))))
    (tokens : list Token.t) : Result (option Statement.t) :=
  token1 <- first_token tokens;;
  if negb (String.eqb (upper (Token.text token1)) instruction) then Ok None
  else try_shapes instruction shapes tokens.

(** The body of [parse_RET_ins] and [parse_RTI_ins]: no operands, and no
    key [operands] in the statement. *)
Definition parse_ins_bare (instruction : string) (tokens : list Token.t)
    : Result (option Statement.t) :=
  token1 <- first_token tokens;;
  if negb (String.eqb (upper (Token.text token1)) instruction) then Ok None
  else if (1 <? Z.of_nat (length tokens)) then Ok None
  else Ok (Some (instruction_statement instruction None)).

Definition parse_ADD_ins := parse_ins "ADD" [parse_operands_DR_SR1_SR2; parse_operands_DR_SR1_imm5].
Definition parse_AND_ins := parse_ins "AND" [parse_operands_DR_SR1_SR2; parse_operands_DR_SR1_imm5].

Definition parse_BR_ins (tokens : list Token.t) : Result (option Statement.t) :=
  token1 <- first_token tokens;;
  let op := Token.text token1 in
  if negb (String.eqb (take_chars 2 (upper op)) "BR") then Ok None
  else if negb (str_in (drop_chars 2 (lower op)) [""; "n"; "z"; "p"; "np"; "nz"; "zp"; "nzp"])
  then Ok None
  else
    let instruction :=
      if (2 <? len op) then take_chars 2 (upper op) +:+ drop_chars 2 (lower op)
      else take_chars 2 (upper op) in
    try_shapes instruction [parse_operands_LABEL] tokens.

Definition parse_JMP_ins := parse_ins "JMP" [parse_operands_BaseR].
Definition parse_RET_ins := parse_ins_bare "RET".
Definition parse_JSR_ins := parse_ins "JSR" [parse_operands_LABEL].
Definition parse_JSRR_ins := parse_ins "JSRR" [parse_operands_BaseR].
Definition parse_LD_ins := parse_ins "LD" [parse_operands_DR_LABEL].
Definition parse_LDI_ins := parse_ins "LDI" [parse_operands_DR_LABEL].
Definition parse_LDR_ins := parse_ins "LDR" [parse_operands_DR_BaseR_offset6].
Definition parse_LEA_ins := parse_ins "LEA" [parse_operands_DR_LABEL].
Definition parse_NOT_ins := parse_ins "NOT" [parse_operands_DR_SR].
Definition parse_RTI_ins := parse_ins_bare "RTI".
Definition parse_ST_ins := parse_ins "ST" [parse_operands_SR_LABEL].
Definition parse_STI_ins := parse_ins "STI" [parse_operands_SR_LABEL].
Definition parse_STR_ins := parse_ins "STR" [parse_operands_SR_BaseR_offset6].
Definition parse_TRAP_ins := parse_ins "TRAP" [parse_operands_trapvector8].

Definition ins_parsers : list (list Token.t -> Result (option Statement.t)) :=
  [ parse_ADD_ins; parse_AND_ins; parse_BR_ins; parse_JMP_ins; parse_RET_ins;
    parse_JSR_ins; parse_JSRR_ins; parse_LD_ins; parse_LDI_ins; parse_LDR_ins;
    parse_LEA_ins; parse_NOT_ins; parse_RET_ins; parse_RTI_ins; parse_ST_ins;
    parse_STI_ins; parse_STR_ins; parse_TRAP_ins ].

(** [for fn in parsers: statement = fn(tokens); if statement is not None: break] *)
Fixpoint first_statement (parsers : list (list Token.t -> Result (option Statement.t)))
    (tokens : list Token.t) : Result (option Statement.t) :=
  match parsers with
  | [] => Ok None
  | fn :: rest =>
      statement <- fn tokens;;
      match statement with
      | Some st => Ok (Some st)
      | None => first_statement rest tokens
      end
  end.

Definition parse_instruction_statement (tokens : list Token.t) : Result (option Statement.t) :=
  token1 <- first_token tokens;;
  if negb (String.eqb (Token.token_type token1) "OPCODE") then Ok None
  else first_statement ins_parsers tokens.

(** ** The parser: directives and lines *)

Definition directive_statement (directive_type : string) : Statement.t :=
  Statement.Build "DIRECTIVE" (Some directive_type) None None None None None None None.

(** [token.value] where the statement stores it as an address or a size.
    The lexer gives every NUMBER and HEX token an [int]; a [str] there can
    not be typed downstream and is refused at once. *)
Definition token_int (token : Token.t) : Result Z :=
  pv <- getattr "value" (Token.value token);;
  as_int pv.

Definition label_statement (label_name : string) : Statement.t :=
  Statement.Build "DIRECTIVE" (Some "LABEL") (Some label_name) None None None None None None.

Definition parse_directive_statement (tokens : list Token.t) : Result (option Statement.t) :=
  match tokens with
  | [token1] =>
      if String.eqb (Token.token_type token1) "LABEL" then
        Ok (Some (label_statement (rstrip ":" (Token.text token1))))
      else if String.eqb (Token.token_type token1) "DIRECTIVE"
              && String.eqb (upper (Token.text token1)) ".END" then
        Ok (Some (directive_statement "END"))
      else if String.eqb (Token.token_type token1) "IDENTIFIER" then
        Ok (Some (label_statement (rstrip ":" (Token.text token1))))
      else Ok None
  | [token1; token2] =>
      if String.eqb (Token.token_type token1) "DIRECTIVE" then
        let text := upper (Token.text token1) in
        if String.eqb text ".ORIG" && String.eqb (Token.token_type token2) "HEX" then
          address <- token_int token2;;
          Ok (Some (Statement.Build "DIRECTIVE" (Some "ORIG") None (Some address)
                      None None None None None))
        else if String.eqb text ".FILL" then
          if str_in (Token.token_type token2) ["NUMBER"; "HEX"] then
            value <- getattr "value" (Token.value token2);;
            Ok (Some (Statement.Build "DIRECTIVE" (Some "FILL") None None (Some value)
                        None None None None))
          else if String.eqb (Token.token_type token2) "IDENTIFIER" then
            Ok (Some (Statement.Build "DIRECTIVE" (Some "FILL") None None None
                        (Some (Token.text token2)) None None None))
          else Ok None
        else if String.eqb text ".BLKW" then
          if str_in (Token.token_type token2) ["NUMBER"; "HEX"] then
            size <- token_int token2;;
            Ok (Some (Statement.Build "DIRECTIVE" (Some "BLKW") None None None None
                        (Some size) None None))
          else Ok None
        else if String.eqb text ".STRINGZ" then
          if String.eqb (Token.token_type token2) "STRING" then
            value <- getattr "value" (Token.value token2);;
            Ok (Some (Statement.Build "DIRECTIVE" (Some "STRINGZ") None None (Some value)
                        None None None None))
          else Ok None
        else Ok None
      else Ok None
  | _ => Ok None
  end.

Definition statement_parsers : list (list Token.t -> Result (option Statement.t)) :=
  [ parse_directive_statement; parse_instruction_statement ].

(** [[token for token in tokens if token.token_type not in ['WS', 'COMMENT']]] *)
Definition filter_tokens (tokens : list Token.t) : list Token.t :=
  List.filter (fun token => negb (str_in (Token.token_type token) ["WS"; "COMMENT"])) tokens.

(** The text of a token list inside the parse error message; the source
    prints the Python [repr] of the list of dictionaries. *)
Fixpoint show_tokens (tokens : list Token.t) : string :=
  match tokens with
  | [] => EmptyString
  | [token] => Token.text token
  | token :: rest => Token.text token +:+ " " +:+ show_tokens rest
  end.

(** The tail of [parse_line]: the statement parsers on a line that does not
    start with a label to split off. *)
Definition parse_statement (tokens : list Token.t) (linenum : Z) : Result (list Statement.t) :=
  statement <- first_statement statement_parsers tokens;;
  match statement with
  | None =>
      Raise (Exception ("Line " +:+ str_of_int linenum +:+ ": cannot parse '"
                          +:+ show_tokens tokens +:+ "'"))
  | Some st => Ok [st]
  end.

(** [parse_line] on tokens already filtered.  The source recurses on
    [tokens[:1]] and on [tokens[1:]]; a list of one token takes neither
    split, so the first call is [parse_statement] on that token. *)
Fixpoint parse_filtered (tokens : list Token.t) (linenum : Z) : Result (list Statement.t) :=
  match tokens with
  | [] => Ok []
  | token1 :: rest =>
      let split :=
        match rest with
        | [] => false
        | token2 :: _ =>
            String.eqb (Token.token_type token1) "LABEL"
            || (String.eqb (Token.token_type token1) "IDENTIFIER"
                && str_in (Token.token_type token2) ["OPCODE"; "DIRECTIVE"])
        end in
      if split then
        head <- parse_statement [token1] linenum;;
        tail <- parse_filtered rest linenum;;
        Ok (head ++ tail)
      else parse_statement tokens linenum
  end.

Definition parse_line (tokens : list Token.t) (linenum : Z) : Result (list Statement.t) :=
  parse_filtered (filter_tokens tokens) linenum.

(** [for i, tokens in enumerate(lexed_lines)], from line [linenum]. *)
Fixpoint parse_from (lexed_lines : list (list Token.t)) (linenum : Z)
    : Result (list Statement.t) :=
  match lexed_lines with
  | [] => Ok []
  | tokens :: rest =>
      line_statements <- parse_line tokens linenum;;
      statements <- parse_from rest (linenum + 1);;
      Ok (line_statements ++ statements)
  end.

Definition parse (lexed_lines : list (list Token.t)) : Result (list Statement.t) :=
  parse_from lexed_lines 1.

(** ** Pass 1: word sizes and the symbol table *)

(** [statement.statement_type == 'DIRECTIVE' and statement.directive_type == d];
    the [and] reads [directive_type] of directives only. *)
Definition is_directive (d : string) (statement : Statement.t) : Result bool :=
  if String.eqb (Statement.statement_type statement) "DIRECTIVE" then
    directive_type <- getattr "directive_type" (Statement.directive_type statement);;
    Ok (String.eqb directive_type d)
  else Ok false.

(** The size in words of a statement; [Ok None] is Python's [None].
    [int(byte_count / 2)] truncates the quotient. *)
Definition size_of_ins (statement : Statement.t) : Result (option Z) :=
  if String.eqb (Statement.statement_type statement) "INSTRUCTION" then Ok (Some 1)
  else if String.eqb (Statement.statement_type statement) "DIRECTIVE" then
    directive_type <- getattr "directive_type" (Statement.directive_type statement);;
    if String.eqb directive_type "FILL" then Ok (Some 1)
    else if String.eqb directive_type "BLKW" then
      size <- getattr "size" (Statement.size statement);;
      Ok (Some size)
    else if String.eqb directive_type "STRINGZ" then
      value <- getattr "value" (Statement.value statement);;
      n <- py_len value;;
      let byte_count := n + 1 in
      let word_count := Z.quot byte_count 2 in
      Ok (Some word_count)
    else Ok None
  else Ok None.

(** The first loop of [make_symbol_table] and of [assemble]: the address of
    the first [.ORIG] directive anywhere among the statements, [Ok None]
    when the loop ends with [location_counter] still [None]. *)
Fixpoint find_orig (statements : list Statement.t) : Result (option Z) :=
  match statements with
  | [] => Ok None
  | statement :: rest =>
      is_orig <- is_directive "ORIG" statement;;
      if is_orig then
        address <- getattr "address" (Statement.address statement);;
        Ok (Some address)
      else find_orig rest
  end.

(** One iteration of the second loop of [make_symbol_table], on the state
    (symbol table, location counter). *)
Definition symbol_step (statement : Statement.t) (state : gmap string Z * Z)
    : Result (gmap string Z * Z) :=
  let '(symbol_table, location_counter) := state in
  is_label <- is_directive "LABEL" statement;;
  if is_label then
    label_name <- getattr "label_name" (Statement.label_name statement);;
    match symbol_table !! label_name with
    | Some _ => Raise (Exception ("Label '" +:+ label_name +:+ "' already in symbol table."))
    | None => Ok (<[label_name := location_counter]> symbol_table, location_counter)
    end
  else
    size <- size_of_ins statement;;
    match size with
    | Some n => Ok (symbol_table, location_counter + n)
    | None => Ok (symbol_table, location_counter)
    end.

Fixpoint symbol_loop (statements : list Statement.t) (state : gmap string Z * Z)
    : Result (gmap string Z * Z) :=
  match statements with
  | [] => Ok state
  | statement :: rest =>
      state' <- symbol_step statement state;;
      symbol_loop rest state'
  end.

Definition make_symbol_table (statements : list Statement.t) : Result (gmap string Z) :=
  location_counter <- find_orig statements;;
  match location_counter with
  | None => Raise (Exception "Couldn't find a .ORIG directive.")
  | Some location_counter =>
      state <- symbol_loop statements (∅, location_counter);;
      Ok (fst state)
  end.

(** ** Pass 2: machine instruction fragments *)

Definition lookup_label (label : string) (symtable : gmap string Z) : Result Z :=
  match symtable !! label with
  | None => Raise (Exception ("Undefined label '" +:+ label +:+ "'"))
  | Some address => Ok address
  end.

Definition generate_imm5 (value : Z) : Z :=
  if value <? 0 then Z.lor (Z.shiftl 1 4) (Z.land 15 value) else value.

Definition generate_offset6 (value : Z) : Z :=
  if value <? 0 then Z.lor (Z.shiftl 1 5) (Z.land 31 value) else value.

Definition generate_pcoffset9 (label : string) (symtable : gmap string Z) (pc : Z) : Result Z :=
  address <- lookup_label label symtable;;
  let pcoffset := address - pc in
  if (pcoffset <? -256) || (pcoffset >? 255) then
    Raise (Exception ("Jump from PC (" +:+ str_of_int pc +:+ ") to label " +:+ label
                        +:+ " (" +:+ str_of_int address +:+ ") does not fit within PCoffset9."))
  else if pcoffset <? 0 then Ok (Z.lor (Z.shiftl 1 8) (Z.land 255 pcoffset))
  else Ok pcoffset.

Definition generate_pcoffset11 (label : string) (symtable : gmap string Z) (pc : Z) : Result Z :=
  address <- lookup_label label symtable;;
  let pcoffset := address - pc in
  if (pcoffset <? -1024) || (pcoffset >? 1023) then
    Raise (Exception ("Jump from PC (" +:+ str_of_int pc +:+ ") to label " +:+ label
                        +:+ " (" +:+ str_of_int address +:+ ") does not fit within PCoffset11."))
  else if pcoffset <? 0 then Ok (Z.lor (Z.shiftl 1 10) (Z.land 1023 pcoffset))
  else Ok pcoffset.

Definition opcodes : list (string * Z) :=
  [ ("BR", 0); ("BRn", 0); ("BRz", 0); ("BRp", 0); ("BRnz", 0); ("BRnp", 0);
    ("BRzp", 0); ("BRnzp", 0); ("ADD", 1); ("LD", 2); ("ST", 3); ("JSR", 4);
    ("JSRR", 4); ("AND", 5); ("LDR", 6); ("STR", 7); ("RTI", 8); ("NOT", 9);
    ("LDI", 10); ("STI", 11); ("JMP", 12); ("RET", 12); ("LEA", 14); ("TRAP", 15) ].

(** [d[key]] on a dictionary literal with distinct keys. *)
Fixpoint dict_get (d : list (string * Z)) (key : string) : Result Z :=
  match d with
  | [] => Raise (KeyError key)
  | (k, v) :: rest => if String.eqb k key then Ok v else dict_get rest key
  end.

(** [opcodes[statement.instruction]] *)
Definition opcode_of (statement : Statement.t) : Result Z :=
  instruction <- getattr "instruction" (Statement.instruction statement);;
  dict_get opcodes instruction.

(** [statement.operands[i]] *)
Definition operand (statement : Statement.t) (i : nat) : Result Operand.t :=
  opnds <- getattr "operands" (Statement.operands statement);;
  py_index opnds i.

(** [statement.operands[i].value] and [statement.operands[i].name] *)
Definition operand_value (statement : Statement.t) (i : nat) : Result Z :=
  opnd <- operand statement i;;
  getattr "value" (Operand.value opnd).

Definition operand_name (statement : Statement.t) (i : nat) : Result string :=
  opnd <- operand statement i;;
  getattr "name" (Operand.name opnd).

Definition generate_bmins_DR_SR1_SR2 (statement : Statement.t) : Result Z :=
  opcode <- opcode_of statement;;
  opnds <- getattr "operands" (Statement.operands statement);;
  dr <- operand_value statement 0;;
  sr1 <- operand_value statement 1;;
  sr2 <- operand_value statement 2;;
  Ok (Z.lor (Z.lor (Z.lor (Z.shiftl opcode 12) (Z.shiftl dr 9)) (Z.shiftl sr1 6)) (Z.shiftl sr2 0)).

Definition generate_bmins_DR_SR1_imm5 (statement : Statement.t) : Result Z :=
  opcode <- opcode_of statement;;
  opnds <- getattr "operands" (Statement.operands statement);;
  dr <- operand_value statement 0;;
  sr1 <- operand_value statement 1;;
  v <- operand_value statement 2;;
  let imm5 := generate_imm5 v in
  Ok (Z.lor (Z.lor (Z.lor (Z.lor (Z.shiftl opcode 12) (Z.shiftl dr 9)) (Z.shiftl sr1 6))
               (Z.shiftl 1 5)) (Z.shiftl imm5 0)).

Definition generate_bmins_DR_PCoffset9 (statement : Statement.t) (symtable : gmap string Z)
    (pc : Z) : Result Z :=
  opcode <- opcode_of statement;;
  opnds <- getattr "operands" (Statement.operands statement);;
  dr <- operand_value statement 0;;
  label <- operand_name statement 1;;
  pcoffset9 <- generate_pcoffset9 label symtable pc;;
  Ok (Z.lor (Z.lor (Z.shiftl opcode 12) (Z.shiftl dr 9)) (Z.shiftl pcoffset9 0)).

Definition generate_bmins_SR_PCoffset9 := generate_bmins_DR_PCoffset9.

Definition generate_bmins_DR_BaseR_offset6 (statement : Statement.t) : Result Z :=
  opcode <- opcode_of statement;;
  opnds <- getattr "operands" (Statement.operands statement);;
  dr <- operand_value statement 0;;
  baser <- operand_value statement 1;;
  v <- operand_value statement 2;;
  let offset6 := generate_offset6 v in
  Ok (Z.lor (Z.lor (Z.lor (Z.shiftl opcode 12) (Z.shiftl dr 9)) (Z.shiftl baser 6))
        (Z.shiftl offset6 0)).

Definition generate_bmins_SR_BaseR_offset6 := generate_bmins_DR_BaseR_offset6.

(** ** Pass 2: machine instructions *)

(** The bodies of [generate_ADD] and [generate_AND] are the same. *)
Definition generate_ADD (statement : Statement.t) : Result Z :=
  opnd <- operand statement 2;;
  if String.eqb (Operand.operand_type opnd) "REGISTER" then generate_bmins_DR_SR1_SR2 statement
  else if String.eqb (Operand.operand_type opnd) "IMMEDIATE" then generate_bmins_DR_SR1_imm5 statement
  else Raise AssertionError.

Definition generate_AND (statement : Statement.t) : Result Z :=
  opnd <- operand statement 2;;
  if String.eqb (Operand.operand_type opnd) "REGISTER" then generate_bmins_DR_SR1_SR2 statement
  else if String.eqb (Operand.operand_type opnd) "IMMEDIATE" then generate_bmins_DR_SR1_imm5 statement
  else Raise AssertionError.

Definition generate_BR (statement : Statement.t) (symtable : gmap string Z) (pc : Z) : Result Z :=
  opcode <- opcode_of statement;;
  label <- operand_name statement 0;;
  pcoffset9 <- generate_pcoffset9 label symtable pc;;
  instruction <- getattr "instruction" (Statement.instruction statement);;
  let n := if contains "n" instruction then 1 else 0 in
  let z := if contains "z" instruction then 1 else 0 in
  let p := if contains "p" instruction then 1 else 0 in
  (* a naked BR should be interpreted as a BRnzp. *)
  let '(n, z, p) :=
    if (n =? 0) && (z =? 0) && (p =? 0) then (1, 1, 1) else (n, z, p) in
  Ok (Z.lor (Z.lor (Z.lor (Z.lor (Z.shiftl opcode 12) (Z.shiftl n 11)) (Z.shiftl z 10))
               (Z.shiftl p 9)) (Z.shiftl pcoffset9 0)).

Definition generate_JMP (statement : Statement.t) : Result Z :=
  opcode <- opcode_of statement;;
  baser <- operand_value statement 0;;
  Ok (Z.lor (Z.shiftl opcode 12) (Z.shiftl baser 6)).

Definition generate_JSR (statement : Statement.t) (symtable : gmap string Z) (pc : Z) : Result Z :=
  opcode <- opcode_of statement;;
  label <- operand_name statement 0;;
  pcoffset11 <- generate_pcoffset11 label symtable pc;;
  Ok (Z.lor (Z.lor (Z.shiftl opcode 12) (Z.shiftl 1 11)) (Z.shiftl pcoffset11 0)).

Definition generate_JSRR (statement : Statement.t) : Result Z :=
  opcode <- opcode_of statement;;
  baser <- operand_value statement 0;;
  Ok (Z.lor (Z.shiftl opcode 12) (Z.shiftl baser 6)).

Definition generate_LD := generate_bmins_DR_PCoffset9.
Definition generate_LDI := generate_bmins_DR_PCoffset9.
Definition generate_LDR := generate_bmins_DR_BaseR_offset6.
Definition generate_LEA := generate_bmins_DR_PCoffset9.

Definition generate_NOT (statement : Statement.t) : Result Z :=
  opcode <- opcode_of statement;;
  opnds <- getattr "operands" (Statement.operands statement);;
  dr <- operand_value statement 0;;
  sr <- operand_value statement 1;;
  Ok (Z.lor (Z.lor (Z.lor (Z.shiftl opcode 12) (Z.shiftl dr 9)) (Z.shiftl sr 6)) (Z.shiftl 63 0)).

Definition generate_RET (statement : Statement.t) : Result Z :=
  opcode <- opcode_of statement;;
  Ok (Z.lor (Z.shiftl opcode 12) (Z.shiftl 7 6)).

Definition generate_RTI : Z := Z.shiftl 1 15.

Definition generate_ST := generate_bmins_SR_PCoffset9.
Definition generate_STI := generate_bmins_DR_PCoffset9.
Definition generate_STR := generate_bmins_SR_BaseR_offset6.

Definition generate_TRAP (statement : Statement.t) : Result Z :=
  opcode <- opcode_of statement;;
  trapvect8 <- operand_value statement 0;;
  Ok (Z.lor (Z.shiftl opcode 12) (Z.shiftl trapvect8 0)).

(** The final [raise] of [assemble_statement]; the source appends the
    Python [repr] of the statement to this message. *)
Definition dont_know : PyError := Exception "Don't know how to assemble".

(** The [.BLKW] loop [for _ in range(n): bmins.append(0); return bmins]:
    the [return] sits inside the loop body, so the first iteration returns.
    [None] means that the loop ended without returning. *)
Definition blkw_loop (n : Z) (bmins : list Z) : option (list Z) :=
  match Z.to_nat n with
  | O => None
  | S _ => Some (bmins ++ [0])
  end.

(** The [.STRINGZ] loop [while len(chars) - i >= 2].  [rest] is
    [chars[i:]]; the result is the final [i] and [bmins]. *)
Fixpoint stringz_loop (rest : string) (i : Z) (bmins : list Z) : Z * list Z :=
  match rest with
  | String c1 (String c2 rest') =>
      let bmin := Z.lor (Z.shiftl (ord c1) 8) (Z.shiftl (ord c2) 0) in
      stringz_loop rest' (i + 2) (bmins ++ [bmin])
  | _ => (i, bmins)
  end.

(** [chars[i]] *)
Definition char_at (chars : string) (i : Z) : Result ascii :=
  match String.get (Z.to_nat i) chars with
  | Some c => Ok c
  | None => Raise IndexError
  end.

(** Turns a statement into a list of binary machine instructions;
    [Ok None] is Python's [None]. *)
Definition assemble_statement (statement : Statement.t) (symtable : gmap string Z) (pc : Z)
    : Result (option (list Z)) :=
  if String.eqb (Statement.statement_type statement) "INSTRUCTION" then
    insname <- getattr "instruction" (Statement.instruction statement);;
    bmin <-
      (if String.eqb insname "ADD" then generate_ADD statement
       else if String.eqb insname "AND" then generate_AND statement
       else if startswith "BR" insname then generate_BR statement symtable pc
       else if String.eqb insname "JMP" then generate_JMP statement
       else if String.eqb insname "JSR" then generate_JSR statement symtable pc
       else if String.eqb insname "JSRR" then generate_JSRR statement
       else if String.eqb insname "LD" then generate_LD statement symtable pc
       else if String.eqb insname "LDI" then generate_LDI statement symtable pc
       else if String.eqb insname "LDR" then generate_LDR statement
       else if String.eqb insname "LEA" then generate_LEA statement symtable pc
       else if String.eqb insname "NOT" then generate_NOT statement
       else if String.eqb insname "RET" then generate_RET statement
       else if String.eqb insname "RTI" then Ok generate_RTI
       else if String.eqb insname "ST" then generate_ST statement symtable pc
       else if String.eqb insname "STI" then generate_STI statement symtable pc
       else if String.eqb insname "STR" then generate_STR statement
       else if String.eqb insname "TRAP" then generate_TRAP statement
       else Raise (UnboundLocalError "bmin"));;
    Ok (Some [bmin])
  else if String.eqb (Statement.statement_type statement) "DIRECTIVE" then
    directive_type <- getattr "directive_type" (Statement.directive_type statement);;
    if str_in directive_type ["LABEL"; "ORIG"; "END"] then Ok None
    else if String.eqb directive_type "FILL" then
      value <- getattr "value" (Statement.value statement);;
      (* [return [statement.value]]: the value as it is, no masking.  The
         parser stores an [int] here; a [str] is no machine word. *)
      match value with
      | VInt v => Ok (Some [v])
      | VStr _ => Raise (TypeError "a machine word must be an int")
      end
    else if String.eqb directive_type "BLKW" then
      value <- getattr "value" (Statement.value statement);;
      n <- py_len value;;
      match blkw_loop n [] with
      | Some bmins => Ok (Some bmins)
      | None => Raise dont_know
      end
    else if String.eqb directive_type "STRINGZ" then
      chars <- getattr "value" (Statement.value statement);;
      match chars with
      | VInt _ => Raise (TypeError "object of type 'int' has no len()")
      | VStr chars =>
          let '(i, bmins) := stringz_loop chars 0 [] in
          if i =? 0 then
            (* we had an even number of chars.  append the terminating NULL. *)
            Ok (Some (bmins ++ [0]))
          else if i =? 1 then
            (* we had an odd number of chars.  append the last straggler
               along with a terminating NULL. *)
            c <- char_at chars i;;
            Ok (Some (bmins ++ [Z.lor (Z.shiftl (ord c) 8) (Z.shiftl 0 0)]))
          else Ok (Some bmins)
      end
    else Raise dont_know
  else Raise dont_know.

(** One iteration of the second loop of [assemble], on the state
    (machine instructions, location counter). *)
Definition assemble_step (symtable : gmap string Z) (statement : Statement.t)
    (state : list Z * Z) : Result (list Z * Z) :=
  let '(machine_instructions, location_counter) := state in
  let program_counter := location_counter + 1 in
  bmins <- assemble_statement statement symtable program_counter;;
  match bmins with
  | None => Ok (machine_instructions, location_counter)
  | Some bmins =>
      Ok (machine_instructions ++ bmins, location_counter + Z.of_nat (length bmins))
  end.

Fixpoint assemble_loop (symtable : gmap string Z) (statements : list Statement.t)
    (state : list Z * Z) : Result (list Z * Z) :=
  match statements with
  | [] => Ok state
  | statement :: rest =>
      state' <- assemble_step symtable statement state;;
      assemble_loop symtable rest state'
  end.

(** Turns the statements into binary machine instructions, the [.ORIG]
    address first. *)
Definition assemble (statements : list Statement.t) (symtable : gmap string Z)
    : Result (list Z) :=
  location_counter <- find_orig statements;;
  match location_counter with
  | None => Raise AssertionError
  | Some location_counter =>
      state <- assemble_loop symtable statements ([location_counter], location_counter);;
      Ok (fst state)
  end.

(** ** The whole pipeline, as [run_job] chains it on the lines of the
    source text (no [--json-input], no early stop). *)
Definition assemble_lines (literal_eval : string -> Result string) (lines : list string)
    : Result (list Z) :=
  lexed_lines <- lex literal_eval (map rstrip_space lines);;
  statements <- parse lexed_lines;;
  symbol_table <- make_symbol_table statements;;
  assemble statements symbol_table.

(** ** The statements the parser builds

    Named after the spec's statement variants; each is the [Obj] that
    [parse_directive_statement] or an instruction parser returns, key for
    key (see [parser_builds_directives] and [parser_builds_instructions]). *)

Definition orig_statement (address : Z) : Statement.t :=
  Statement.Build "DIRECTIVE" (Some "ORIG") None (Some address) None None None None None.

Definition end_statement : Statement.t := directive_statement "END".

(** [.FILL] with a number: the key [value]. *)
Definition fill_statement (v : Z) : Statement.t :=
  Statement.Build "DIRECTIVE" (Some "FILL") None None (Some (VInt v)) None None None None.

(** [.FILL] with an identifier: the key [label], and no key [value]. *)
Definition fill_label_statement (label : string) : Statement.t :=
  Statement.Build "DIRECTIVE" (Some "FILL") None None None (Some label) None None None.

(** [.BLKW]: the key [size], and no key [value]. *)
Definition blkw_statement (size : Z) : Statement.t :=
  Statement.Build "DIRECTIVE" (Some "BLKW") None None None None (Some size) None None.

Definition stringz_statement (payload : string) : Statement.t :=
  Statement.Build "DIRECTIVE" (Some "STRINGZ") None None (Some (VStr payload)) None None None None.

Definition label_operand (name : string) : Operand.t :=
  Operand.Build "LABEL" (Some name) None.

Definition register_operand (name : string) (value : Z) : Operand.t :=
  Operand.Build "REGISTER" (Some name) (Some value).

Definition ret_statement : Statement.t := instruction_statement "RET" None.

Definition jmp_statement (name : string) (baser : Z) : Statement.t :=
  instruction_statement "JMP" (Some [register_operand name baser]).

(** [BR] with a suffix among the eight the parser accepts. *)
Definition br_suffixes : list string := [""; "n"; "z"; "p"; "np"; "nz"; "zp"; "nzp"].

Definition br_statement (suffix : string) (label : string) : Statement.t :=
  instruction_statement ("BR" +:+ suffix) (Some [label_operand label]).

Definition jsr_statement (label : string) : Statement.t :=
  instruction_statement "JSR" (Some [label_operand label]).

(** [LD], [LDI], [LEA], [ST], [STI]: a register and a label. *)
Definition reg_label_mnemonics : list string := ["LD"; "LDI"; "LEA"; "ST"; "STI"].

Definition reg_label_statement (mnemonic name : string) (reg : Z) (label : string)
    : Statement.t :=
  instruction_statement mnemonic (Some [register_operand name reg; label_operand label]).

(** The PC-relative instructions that reference [label], with the width of
    their offset field. *)
Inductive pc_relative (label : string) : Statement.t -> Z -> Prop :=
| pc_relative_BR (suffix : string) :
    In suffix br_suffixes ->
    pc_relative label (br_statement suffix label) 9
| pc_relative_reg (mnemonic name : string) (reg : Z) :
    In mnemonic reg_label_mnemonics ->
    pc_relative label (reg_label_statement mnemonic name reg label) 9
| pc_relative_JSR :
    pc_relative label (jsr_statement label) 11.

(** The message of the out-of-range error of [generate_pcoffset9] and
    [generate_pcoffset11]. *)
Definition pcoffset_error (width : Z) (pc : Z) (label : string) (address : Z) : PyError :=
  Exception ("Jump from PC (" +:+ str_of_int pc +:+ ") to label " +:+ label
               +:+ " (" +:+ str_of_int address +:+ ") does not fit within PCoffset"
               +:+ str_of_int width +:+ ".").

(** ** The spec's reading, for comparison with the code *)

(** The word size of the table of section 4.3 of the spec, with
    ceil((len(s)+1)/2) for a string payload; [None] for a statement that is
    none of the spec's variants. *)
Definition spec_word_size (statement : Statement.t) : option Z :=
  if String.eqb (Statement.statement_type statement) "INSTRUCTION" then Some 1
  else
    match Statement.directive_type statement with
    | Some d =>
        if String.eqb d "FILL" then Some 1
        else if String.eqb d "BLKW" then Statement.size statement
        else if String.eqb d "STRINGZ" then
          match Statement.value statement with
          | Some (VStr s) => Some ((len s + 1 + 1) / 2)
          | _ => None
          end
        else Some 0
    | None => None
    end.

(** [1 + sum of the word sizes], the output size the spec gives. *)
Fixpoint spec_output_size (statements : list Statement.t) : option Z :=
  match statements with
  | [] => Some 1
  | statement :: rest =>
      match spec_word_size statement, spec_output_size rest with
      | Some n, Some total => Some (n + total)
      | _, _ => None
      end
  end.

(** The statements up to the first [End], which the spec says are the only
    ones read. *)
Fixpoint upto_end (statements : list Statement.t) : list Statement.t :=
  match statements with
  | [] => []
  | statement :: rest =>
      match is_directive "END" statement with
      | Ok true => []
      | _ => statement :: upto_end rest
      end
  end.

(** An emitting statement of the spec: an instruction, [Fill], [Blkw] or
    [Stringz]. *)
Definition is_emitting (statement : Statement.t) : bool :=
  String.eqb (Statement.statement_type statement) "INSTRUCTION"
  || match Statement.directive_type statement with
     | Some d => str_in d ["FILL"; "BLKW"; "STRINGZ"]
     | None => false
     end.

(** Whether an [Origin] precedes the first emitting statement, in the
    spec's words. *)
Fixpoint origin_precedes_emitting (statements : list Statement.t) : bool :=
  match statements with
  | [] => false
  | statement :: rest =>
      match is_directive "ORIG" statement with
      | Ok true => true
      | _ => if is_emitting statement then false else origin_precedes_emitting rest
      end
  end.

(** The value of a hexadecimal digit string, most significant digit first. *)
Fixpoint hex_value (digits : string) (acc : Z) : Z :=
  match digits with
  | EmptyString => acc
  | String c rest =>
      match digit_value c with
      | Some d => hex_value rest (acc * 16 + d)
      | None => hex_value rest (acc * 16)
      end
  end.

(** A decoder for string literals without escapes: the text between the
    quotes.  It stands for [ast.literal_eval] in the examples. *)
Definition unquote (text : string) : Result string :=
  Ok (substring 1 (String.length text - 2) text).

(** A source line [.STRINGZ] followed by the quoted payload. *)
Definition stringz_line (payload : string) : string :=
  ".STRINGZ " +:+ String dquote (payload +:+ String dquote EmptyString).

(** The missing-origin error of pass 1. *)
Definition missing_orig : PyError := Exception "Couldn't find a .ORIG directive.".

(** The complete pairs of a payload, packed high byte first: what the
    [.STRINGZ] loop appends. *)
Fixpoint packed_pairs (chars : string) : list Z :=
  match chars with
  | String c1 (String c2 rest) =>
      Z.lor (Z.shiftl (ord c1) 8) (Z.shiftl (ord c2) 0) :: packed_pairs rest
  | _ => []
  end.

(** A token, as the lexer builds it. *)
Definition tok (token_type text : string) (value : option PyVal) : Token.t :=
  Token.Build token_type text value.

(** The digit string of the text of a Hex token: the text without its
    prefix, one optional [0] and the [x]. *)
Definition hex_digits (text : string) : string :=
  match text with
  | String "0" (String "x" digits) => digits
  | String "x" digits => digits
  | _ => text
  end.

(** [all(p(c) for c in s)] *)
Fixpoint str_forall (p : ascii -> bool) (s : string) : bool :=
  match s with
  | EmptyString => true
  | String c rest => p c && str_forall p rest
  end.

(** The [ValueError] of [int('', 16)]. *)
Definition empty_hex_literal : PyError :=
  ValueError "invalid literal for int() with base 16: ''".

(** A token of the lexer's output that has type HEX was made from a text
    the HEX pattern matched. *)
Definition hex_made (literal_eval : string -> Result string) (token : Token.t) : Prop :=
  Token.token_type token = "HEX" ->
  exists s, match_HEX s = Some (Token.text token)
            /\ make_token literal_eval "HEX" (Token.text token) = Ok token.

(** ** Example programs *)

(** [.ORIG x3000 / .STRINGZ "ABC" / .END] *)
Definition program_stringz : list Statement.t :=
  [orig_statement 12288; stringz_statement "ABC"; end_statement].

(** [.ORIG x3000 / .END / L .FILL #7]: a label and a word after End. *)
Definition program_after_end : list Statement.t :=
  [orig_statement 12288; end_statement; label_statement "L"; fill_statement 7].

(** [A .FILL #0 / .ORIG x3000]: the Origin after an emitting statement. *)
Definition program_late_origin : list Statement.t :=
  [label_statement "A"; fill_statement 0; orig_statement 12288].


(** ** Further definitions: what the lexer and the parser keep *)

(** The texts of the tokens of a line, one after the other. *)
Fixpoint concat_texts (tokens : list Token.t) : string :=
  match tokens with
  | [] => EmptyString
  | token :: rest => Token.text token +:+ concat_texts rest
  end.



(** A token the parser skips: whitespace or a comment. *)
Definition is_blank (token : Token.t) : bool :=
  str_in (Token.token_type token) ["WS"; "COMMENT"].

(** [text] is a non-empty prefix of [s]: what a pattern may return on [s]. *)
Definition matched (s text : string) : Prop :=
  text <> EmptyString /\ s = text +:+ drop_chars (String.length text) s.

(** An immediate operand, as the operand parsers build it. *)
Definition immediate_operand (value : Z) : Operand.t :=
  Operand.Build "IMMEDIATE" None (Some value).

(** Whether a line of tokens parses whatever its number. *)
Definition parses (tokens : list Token.t) : Prop :=
  exists statements, parse_line tokens 0 = Ok statements.

(** The condition bits n, z, p of a BR suffix as a 3-bit number, all set
    for the empty suffix. *)
Definition condition_bits (suffix : string) : Z :=
  if String.eqb suffix EmptyString then 7
  else (if contains "n" suffix then 4 else 0)
       + (if contains "z" suffix then 2 else 0)
       + (if contains "p" suffix then 1 else 0).

(** ** Further definitions: pass 1 and pass 2 as a whole *)

(** The label a statement declares, if it is a label declaration. *)
Definition declared_label (statement : Statement.t) : option string :=
  match is_directive "LABEL" statement with
  | Ok true => Statement.label_name statement
  | _ => None
  end.

(** The labels the statements declare, in order, with repetitions. *)
Fixpoint declared_labels (statements : list Statement.t) : list string :=
  match statements with
  | [] => []
  | statement :: rest =>
      match declared_label statement with
      | Some name => name :: declared_labels rest
      | None => declared_labels rest
      end
  end.

(** The number of words pass 1 counts for a statement: what
    [size_of_ins] returns, nothing for [None]. *)
Definition pass1_size (statement : Statement.t) : Z :=
  match size_of_ins statement with
  | Ok (Some n) => n
  | _ => 0
  end.

Fixpoint pass1_total (statements : list Statement.t) : Z :=
  match statements with
  | [] => 0
  | statement :: rest => pass1_size statement + pass1_total rest
  end.

(** The statements of the instructions that take registers and
    immediates, as their parsers build them. *)
Definition reg3_statement (mnemonic n1 n2 n3 : string) (dr sr1 sr2 : Z) : Statement.t :=
  instruction_statement mnemonic
    (Some [register_operand n1 dr; register_operand n2 sr1; register_operand n3 sr2]).

Definition reg2_imm_statement (mnemonic n1 n2 : string) (dr sr1 imm : Z) : Statement.t :=
  instruction_statement mnemonic
    (Some [register_operand n1 dr; register_operand n2 sr1; immediate_operand imm]).

Definition not_statement (n1 n2 : string) (dr sr : Z) : Statement.t :=
  instruction_statement "NOT" (Some [register_operand n1 dr; register_operand n2 sr]).

Definition jsrr_statement (name : string) (baser : Z) : Statement.t :=
  instruction_statement "JSRR" (Some [register_operand name baser]).

Definition trap_statement (trapvect8 : Z) : Statement.t :=
  instruction_statement "TRAP" (Some [immediate_operand trapvect8]).

(** The opcodes of the ISA table for the mnemonics that share a format:
    ADD 1 and AND 5; LDR 6 and STR 7; LD 2, LDI 10, LEA 14, ST 3, STI 11. *)
Definition add_and_opcode (mnemonic : string) : Z :=
  if String.eqb mnemonic "ADD" then 1 else 5.

Definition ldr_str_opcode (mnemonic : string) : Z :=
  if String.eqb mnemonic "LDR" then 6 else 7.

Definition reg_label_opcode (mnemonic : string) : Z :=
  if String.eqb mnemonic "LD" then 2
  else if String.eqb mnemonic "LDI" then 10
  else if String.eqb mnemonic "LEA" then 14
  else if String.eqb mnemonic "ST" then 3
  else 11.

(** ** The output stage of [run_job]

    [format(n, '016b')] and [format(n, '04X')] are Python built-ins: the
    digits of the absolute value in the base, capitals for the digits from
    ten on, after the sign of a negative number, zeros between sign and
    digits up to the width. *)

Definition digit_char (d : Z) : ascii :=
  if d <? 10 then ascii_of_N (Z.to_N (48 + d)) else ascii_of_N (Z.to_N (55 + d)).

(** The digits of [n], least significant first, each put in front of
    [acc]; [fuel] bounds the number of digits. *)
Fixpoint digits_loop (fuel : nat) (base n : Z) (acc : string) : string :=
  match fuel with
  | O => acc
  | S fuel' =>
      let acc' := String (digit_char (n mod base)) acc in
      if n / base =? 0 then acc' else digits_loop fuel' base (n / base) acc'
  end.

(** The digits of [n >= 0] in the base; a number has no more digits than
    bits. *)
Definition digits (base n : Z) : string :=
  digits_loop (S (Z.to_nat (Z.log2 n))) base n EmptyString.

Fixpoint zeros (k : nat) : string :=
  match k with
  | O => EmptyString
  | S k' => String "0" (zeros k')
  end.

(** [format(n, '0<width>b')] for base 2 and [format(n, '0<width>X')] for
    base 16. *)
Definition format_int (base : Z) (width : nat) (n : Z) : string :=
  let sign := if n <? 0 then "-" else EmptyString in
  let body := digits base (Z.abs n) in
  sign +:+ zeros (width - String.length sign - String.length body) +:+ body.

Definition newline : string := String "010"%char EmptyString.

(** The BINASCII branch: [format(bmin, '016b') + newline] for each word. *)
Fixpoint write_binascii (machine_instructions : list Z) : string :=
  match machine_instructions with
  | [] => EmptyString
  | bmin :: rest => format_int 2 16 bmin +:+ newline +:+ write_binascii rest
  end.

(** The HEX branch: ['0x' + format(bmin, '04X') + newline] for each word. *)
Fixpoint write_hex (machine_instructions : list Z) : string :=
  match machine_instructions with
  | [] => EmptyString
  | bmin :: rest => "0x" +:+ format_int 16 4 bmin +:+ newline +:+ write_hex rest
  end.




(** ** The command line: [parse_args]

    The job is an [Obj]; its key [outfile] is set on every path, to a name
    or to Python's [None]. *)

Module Job.
Record t : Type := Build {
  mode : string;
  infile : option string;
  json_input : bool;
  output_format : option string;
  outfile : option string
}.
End Job.

(** The body of the loop over [sys.argv[1:]]. *)
Definition parse_arg (job : Job.t) (arg : string) : Job.t :=
  if str_in arg ["-h"; "--help"] then
    Job.Build "MODE_HELP" (Job.infile job) (Job.json_input job) (Job.output_format job)
      (Job.outfile job)
  else if String.eqb arg "--lex" then
    Job.Build "MODE_LEX" (Job.infile job) (Job.json_input job) (Job.output_format job)
      (Job.outfile job)
  else if String.eqb arg "--parse" then
    Job.Build "MODE_PARSE" (Job.infile job) (Job.json_input job) (Job.output_format job)
      (Job.outfile job)
  else if String.eqb arg "--symbols" then
    Job.Build "MODE_SYMBOLS" (Job.infile job) (Job.json_input job) (Job.output_format job)
      (Job.outfile job)
  else if String.eqb arg "--hex" then
    Job.Build (Job.mode job) (Job.infile job) (Job.json_input job) (Some "HEX")
      (Job.outfile job)
  else if String.eqb arg "--binascii" then
    Job.Build (Job.mode job) (Job.infile job) (Job.json_input job) (Some "BINASCII")
      (Job.outfile job)
  else if String.eqb arg "--binary" then
    Job.Build (Job.mode job) (Job.infile job) (Job.json_input job) (Some "BINARY")
      (Job.outfile job)
  else if String.eqb arg "--json-input" then
    Job.Build (Job.mode job) (Job.infile job) true (Job.output_format job) (Job.outfile job)
  else
    Job.Build (Job.mode job) (Some arg) (Job.json_input job) (Job.output_format job)
      (Job.outfile job).

(** [s.rsplit('.', 1)] when [s] holds a dot: the part before the last dot;
    [None] when it holds none. *)
Fixpoint before_last_dot (s : string) : option string :=
  match s with
  | EmptyString => None
  | String c rest =>
      match before_last_dot rest with
      | Some head => Some (String c head)
      | None => if Ascii.eqb c "." then Some EmptyString else None
      end
  end.

(** [s.rsplit('.', 1)[0]] *)
Definition rsplit_dot_head (s : string) : string :=
  match before_last_dot s with
  | Some head => head
  | None => s
  end.

(** [parse_args], on the arguments after the program name. *)
Definition parse_args (args : list string) : Job.t :=
  let job := fold_left parse_arg args (Job.Build "MODE_ALL" None false None None) in
  match Job.infile job with
  | Some infile =>
      match Job.output_format job with
      | None =>
          Job.Build (Job.mode job) (Some infile) (Job.json_input job) (Some "BINARY")
            (Some (rsplit_dot_head infile +:+ ".bin"))
      | Some output_format =>
          if String.eqb output_format "BINARY" then
            Job.Build (Job.mode job) (Some infile) (Job.json_input job) (Some output_format)
              (Some (rsplit_dot_head infile +:+ ".bin"))
          else
            Job.Build (Job.mode job) (Some infile) (Job.json_input job) (Some output_format)
              None
      end
  | None =>
      match Job.output_format job with
      | None => Job.Build (Job.mode job) None (Job.json_input job) (Some "BINASCII") None
      | Some output_format =>
          Job.Build (Job.mode job) None (Job.json_input job) (Some output_format) None
      end
  end.

(** The three output formats. *)
Definition output_formats : list string := ["HEX"; "BINASCII"; "BINARY"].

(** Whether a string holds a dot. *)
Definition has_dot (s : string) : bool := contains "." s.

(** * Properties *)

(** Instruction names such as ["BR" +:+ "nzp"] are evaluated before the
    dispatch on them is reduced. *)
Ltac eval_names :=
  repeat match goal with
  | |- context [String.app ?a ?b] =>
      let r := eval vm_compute in (String.app a b) in
      change (String.app a b) with r
  end.

(** ** The parser builds the named statements *)

Lemma parser_builds_directives (n : Z) (name payload text : string) :
  parse_directive_statement [tok "DIRECTIVE" ".ORIG" None; tok "HEX" text (Some (VInt n))]
    = Ok (Some (orig_statement n))
  /\ parse_directive_statement [tok "DIRECTIVE" ".END" None] = Ok (Some end_statement)
  /\ parse_directive_statement [tok "DIRECTIVE" ".FILL" None; tok "NUMBER" text (Some (VInt n))]
    = Ok (Some (fill_statement n))
  /\ parse_directive_statement [tok "DIRECTIVE" ".FILL" None; tok "IDENTIFIER" name None]
    = Ok (Some (fill_label_statement name))
  /\ parse_directive_statement [tok "DIRECTIVE" ".BLKW" None; tok "NUMBER" text (Some (VInt n))]
    = Ok (Some (blkw_statement n))
  /\ parse_directive_statement
       [tok "DIRECTIVE" ".STRINGZ" None; tok "STRING" text (Some (VStr payload))]
    = Ok (Some (stringz_statement payload)).
Proof. repeat split; reflexivity. Qed.

Lemma parser_builds_instructions (label : string) :
  parse_instruction_statement [tok "OPCODE" "BR" None; tok "IDENTIFIER" label None]
    = Ok (Some (br_statement "" label))
  /\ parse_instruction_statement [tok "OPCODE" "BRnzp" None; tok "IDENTIFIER" label None]
    = Ok (Some (br_statement "nzp" label))
  /\ parse_instruction_statement [tok "OPCODE" "JSR" None; tok "IDENTIFIER" label None]
    = Ok (Some (jsr_statement label))
  /\ parse_instruction_statement
       [tok "OPCODE" "LEA" None; tok "REGISTER" "r3" None; tok "IDENTIFIER" label None]
    = Ok (Some (reg_label_statement "LEA" "R3" 3 label))
  /\ parse_instruction_statement [tok "OPCODE" "JMP" None; tok "REGISTER" "R6" None]
    = Ok (Some (jmp_statement "R6" 6))
  /\ parse_instruction_statement [tok "OPCODE" "ret" None] = Ok (Some ret_statement).
Proof. repeat split; reflexivity. Qed.

(** ** C9 and C10: encodings that coincide *)

(** C9. For every target label, symbol table and program counter, a BR with
    the empty suffix and a BRnzp assemble to the same result (the same word,
    or the same error when the label is undefined or out of range), and the
    naked BR carries n = z = p = 1: its word is the three condition bits
    11, 10 and 9 set over the 9-bit offset. *)
Theorem br_naked_same_as_brnzp (label : string) (symtable : gmap string Z) (pc : Z) :
  assemble_statement (br_statement "" label) symtable pc
    = assemble_statement (br_statement "nzp" label) symtable pc
  /\ assemble_statement (br_statement "" label) symtable pc
    = (pcoffset9 <- generate_pcoffset9 label symtable pc;;
       Ok (Some [Z.lor (Z.lor (Z.lor (Z.shiftl 1 11) (Z.shiftl 1 10)) (Z.shiftl 1 9))
                   pcoffset9])).
Proof.
  unfold assemble_statement, br_statement, instruction_statement, generate_BR.
  eval_names. cbn -[generate_pcoffset9].
  destruct (generate_pcoffset9 label symtable pc) as [off|e]; cbn; split; reflexivity.
Qed.

(** C10. RET assembles to the word 0xC1C0 (49600), the word of a JMP whose
    base register is 7; and register 7 cannot be written in source text:
    whatever text the REGISTER pattern matches, the operand
    [parse_operand_register] builds from it has a value between 0 and 6. *)
Theorem ret_same_as_jmp_r7 (symtable : gmap string Z) (pc : Z) :
  assemble_statement ret_statement symtable pc = Ok (Some [49600])
  /\ assemble_statement (jmp_statement "R7" 7) symtable pc = Ok (Some [49600])
  /\ (forall s text : string,
        match_REGISTER s = Some text ->
        exists v : Z,
          parse_operand_register (tok "REGISTER" text None)
            = Ok (Some (register_operand (upper text) v))
          /\ 0 <= v <= 6).
Proof.
  split; [reflexivity|]. split; [reflexivity|].
  intros s text Hm. unfold match_REGISTER in Hm.
  destruct s as [|r [|d rest]]; try discriminate.
  destruct ((Ascii.eqb r "r" || Ascii.eqb r "R") && in_range "0" "6" d) eqn:E; [|discriminate].
  injection Hm as <-.
  apply andb_prop in E as [_ Hd].
  destruct d as [[] [] [] [] [] [] [] []];
    try (exfalso; vm_compute in Hd; discriminate Hd).
  all: unfold parse_operand_register, register_operand, tok;
    cbn [Token.token_type Token.text String.eqb Ascii.eqb Bool.eqb drop_chars].
  all: eexists; (split; [vm_compute py_int; reflexivity | lia]).
Qed.

Lemma ret_same_as_jmp_r7_witness :
  match_REGISTER "R6, LOOP" = Some "R6"
  /\ exists v : Z,
       parse_operand_register (tok "REGISTER" "R6" None)
         = Ok (Some (register_operand (upper "R6") v))
       /\ 0 <= v <= 6.
Proof.
  split; [reflexivity|].
  exact (proj2 (proj2 (ret_same_as_jmp_r7 ∅ 0)) "R6, LOOP" "R6" eq_refl).
Defined.

(** The source text [JMP R7] does not parse: [R7] lexes as an identifier. *)
Example jmp_r7_is_refused (literal_eval : string -> Result string) :
  (tokens <- lex_line literal_eval "JMP R7";; parse_line tokens 1)
    = Raise (Exception "Line 1: cannot parse 'JMP R7'").
Proof. reflexivity. Qed.

(** ** Directives in pass 2: [.STRINGZ], [.FILL], [.BLKW] *)

Lemma stringz_loop_spec_aux (rest : string) :
  (forall i bmins,
     stringz_loop rest i bmins
       = (i + 2 * Z.of_nat (length (packed_pairs rest)), bmins ++ packed_pairs rest))
  /\ (forall c i bmins,
        stringz_loop (String c rest) i bmins
          = (i + 2 * Z.of_nat (length (packed_pairs (String c rest))),
             bmins ++ packed_pairs (String c rest))).
Proof.
  induction rest as [|c' rest [IH1 IH2]].
  - split; intros; cbn [stringz_loop packed_pairs length];
      rewrite app_nil_r; f_equal; lia.
  - split; [exact (IH2 c')|].
    intros c i bmins. cbn [stringz_loop packed_pairs].
    rewrite IH1. cbn [length]. rewrite <- app_assoc. cbn [app]. f_equal. lia.
Qed.

Lemma stringz_loop_spec (rest : string) (i : Z) (bmins : list Z) :
  stringz_loop rest i bmins
    = (i + 2 * Z.of_nat (length (packed_pairs rest)), bmins ++ packed_pairs rest).
Proof. apply stringz_loop_spec_aux. Qed.

(** What pass 2 emits for a [.STRINGZ]: the complete pairs and nothing
    else, or one zero word when there is no complete pair. *)
Lemma stringz_emits (payload : string) (symtable : gmap string Z) (pc : Z) :
  assemble_statement (stringz_statement payload) symtable pc
    = Ok (Some (match packed_pairs payload with
                | [] => [0]
                | pairs => pairs
                end)).
Proof.
  unfold assemble_statement, stringz_statement.
  cbn [Statement.statement_type Statement.directive_type Statement.value
       String.eqb Ascii.eqb Bool.eqb getattr bind str_in orb].
  rewrite stringz_loop_spec. cbn [app].
  destruct (packed_pairs payload) as [|w ws]; [reflexivity|].
  cbn [length].
  replace (0 + 2 * Z.of_nat (S (length ws)) =? 0) with false
    by (symmetry; apply Z.eqb_neq; lia).
  replace (0 + 2 * Z.of_nat (S (length ws)) =? 1) with false
    by (symmetry; apply Z.eqb_neq; lia).
  reflexivity.
Qed.

Lemma packed_pairs_length (payload : string) :
  Z.of_nat (length (packed_pairs payload)) = len payload / 2.
Proof.
  unfold len.
  enough (H : forall s,
             Z.of_nat (length (packed_pairs s)) = Z.of_nat (String.length s) / 2
             /\ forall c, Z.of_nat (length (packed_pairs (String c s)))
                          = Z.of_nat (String.length (String c s)) / 2)
    by apply H.
  induction s as [|c' s [IH1 IH2]].
  - split; [reflexivity|]. intros c. reflexivity.
  - split; [apply IH2|]. intros c.
    cbn [packed_pairs length String.length]. rewrite !Nat2Z.inj_succ, IH1.
    replace (Z.succ (Z.succ (Z.of_nat (String.length s))))
      with (Z.of_nat (String.length s) + 1 * 2) by lia.
    rewrite Z.div_add by lia. lia.
Qed.

(** The number of words pass 2 emits for a [.STRINGZ]: one for a payload
    of at most one character, otherwise half its length rounded down. *)
Lemma stringz_emitted_count (payload : string) (symtable : gmap string Z) (pc : Z) :
  exists words,
    assemble_statement (stringz_statement payload) symtable pc = Ok (Some words)
    /\ Z.of_nat (length words) = Z.max 1 (len payload / 2).
Proof.
  eexists. split; [apply stringz_emits|].
  pose proof (packed_pairs_length payload) as H.
  destruct (packed_pairs payload) as [|w ws]; cbn [length] in *; lia.
Qed.

(** C1, at the inputs the claim names.  Pass 2 emits one zero word for the
    empty payload, as claimed; for "A" it emits the single word 0, where the
    claim has 0x4100 (16640); for "AB" it emits 0x4142 (16706) alone, where
    the claim adds a zero word; for "ABC" it emits 0x4142 alone, where the
    claim adds 0x4300 (17152).  The same through the whole pipeline for the
    source [.ORIG x3000 / .STRINGZ "A" / .END]. *)
Theorem stringz_loses_straggler_and_nul (symtable : gmap string Z) (pc : Z) :
  assemble_statement (stringz_statement "") symtable pc = Ok (Some [0])
  /\ assemble_statement (stringz_statement "A") symtable pc = Ok (Some [0])
  /\ assemble_statement (stringz_statement "AB") symtable pc = Ok (Some [16706])
  /\ assemble_statement (stringz_statement "ABC") symtable pc = Ok (Some [16706])
  /\ assemble_lines unquote [".ORIG x3000"; stringz_line "A"; ".END"] = Ok [12288; 0]
  /\ assemble_lines unquote [".ORIG x3000"; stringz_line "ABC"; ".END"] = Ok [12288; 16706].
Proof.
  repeat split; try (rewrite stringz_emits; reflexivity); vm_compute; reflexivity.
Qed.

(** C2, at the failing inputs.  A [.FILL] with a label has no key [value],
    which pass 2 reads: it raises [KeyError], whatever the symbol table
    holds for the label.  A [.FILL] with an integer emits the integer as it
    is, not its low 16 bits: -1 stays -1.  The source of the spec's scenario
    4 raises the [KeyError]. *)
Theorem fill_label_raises_key_error (label : string) (v : Z)
    (symtable : gmap string Z) (pc : Z) :
  assemble_statement (fill_label_statement label) symtable pc = Raise (KeyError "value")
  /\ assemble_statement (fill_statement v) symtable pc = Ok (Some [v])
  /\ assemble_statement (fill_statement (-1)) symtable pc <> Ok (Some [(-1) mod 2 ^ 16])
  /\ assemble_lines unquote
       [".ORIG x3000"; ".FILL x4242"; ".FILL TARGET"; "TARGET .FILL #0"; ".END"]
     = Raise (KeyError "value")
  /\ assemble_lines unquote [".ORIG x3000"; ".FILL #-1"; ".END"] = Ok [12288; -1].
Proof.
  split; [reflexivity|]. split; [reflexivity|]. split; [discriminate|].
  split; vm_compute; reflexivity.
Qed.

(** C3, at the failing input.  Pass 1 advances the location counter by the
    size [n] of a [.BLKW], as claimed.  Pass 2 reads the key [value], which
    a [.BLKW] statement does not have (it has [size]), and raises
    [KeyError]: no zero word is emitted, also for [.BLKW 1]. *)
Theorem blkw_pass2_raises_key_error (n : Z) (symbol_table symtable : gmap string Z)
    (location_counter pc : Z) :
  symbol_step (blkw_statement n) (symbol_table, location_counter)
    = Ok (symbol_table, location_counter + n)
  /\ assemble_statement (blkw_statement n) symtable pc = Raise (KeyError "value")
  /\ assemble_lines unquote [".ORIG x3000"; ".BLKW 1"; ".END"] = Raise (KeyError "value").
Proof.
  split; [reflexivity|]. split; [reflexivity|]. vm_compute; reflexivity.
Qed.

(** Were the key [value] present, the loop would still return inside its
    first iteration: at most one zero word. *)
Lemma blkw_loop_at_most_one (n : Z) (bmins : list Z) :
  blkw_loop n bmins = if 0 <? n then Some (bmins ++ [0]) else None.
Proof.
  unfold blkw_loop. destruct (Z.ltb_spec 0 n) as [H|H].
  - destruct (Z.to_nat n) eqn:E; [lia | reflexivity].
  - replace (Z.to_nat n) with O by lia. reflexivity.
Qed.

(** C4, at a failing input.  The source [.ORIG x3000 / .STRINGZ "ABC" / .END]
    assembles without error to two words, where the spec's sizes give
    1 + 2 = 3; pass 1 counts two words for the statement and pass 2 emits
    one. *)
Theorem passes_disagree_on_stringz :
  (lexed <- lex unquote [".ORIG x3000"; stringz_line "ABC"; ".END"];; parse lexed)
    = Ok program_stringz
  /\ make_symbol_table program_stringz = Ok ∅
  /\ assemble program_stringz ∅ = Ok [12288; 16706]
  /\ spec_output_size program_stringz = Some 3
  /\ size_of_ins (stringz_statement "ABC") = Ok (Some 2)
  /\ assemble_statement (stringz_statement "ABC") ∅ 12289 = Ok (Some [16706]).
Proof.
  repeat split; vm_compute; reflexivity.
Qed.

(** Pass 1 counts [(len + 1) quot 2] words for a [.STRINGZ] and pass 2
    emits [max 1 (len / 2)]: they agree on a payload of one character and on
    the non-empty payloads of even length, and differ on the empty payload
    and on every odd length from three on. *)
Lemma stringz_sizes_differ (payload : string) (symtable : gmap string Z) (pc : Z) :
  exists words,
    size_of_ins (stringz_statement payload) = Ok (Some (Z.quot (len payload + 1) 2))
    /\ assemble_statement (stringz_statement payload) symtable pc = Ok (Some words)
    /\ (Z.of_nat (length words) = Z.quot (len payload + 1) 2
        <-> len payload = 1 \/ (2 <= len payload /\ len payload mod 2 = 0)).
Proof.
  destruct (stringz_emitted_count payload symtable pc) as [words [Hw Hl]].
  exists words. split; [reflexivity|]. split; [exact Hw|].
  rewrite Hl. assert (0 <= len payload) by (unfold len; lia).
  rewrite Z.quot_div_nonneg by lia.
  pose proof (Z.div_mod (len payload) 2 ltac:(lia)).
  pose proof (Z.mod_pos_bound (len payload) 2 ltac:(lia)).
  pose proof (Z.div_mod (len payload + 1) 2 ltac:(lia)).
  pose proof (Z.mod_pos_bound (len payload + 1) 2 ltac:(lia)).
  lia.
Qed.

(** ** The two loops over the statements *)

Lemma is_directive_end (d : string) :
  is_directive d end_statement = Ok (String.eqb "END" d).
Proof. reflexivity. Qed.

Lemma find_orig_skips_end (pre post : list Statement.t) :
  find_orig (pre ++ end_statement :: post) = find_orig (pre ++ post).
Proof.
  induction pre as [|statement pre IH]; [reflexivity|].
  cbn [app find_orig].
  destruct (is_directive "ORIG" statement) as [[]|e]; cbn [bind]; auto.
Qed.

Lemma symbol_step_end (state : gmap string Z * Z) :
  symbol_step end_statement state = Ok state.
Proof. destruct state. reflexivity. Qed.

Lemma assemble_step_end (symtable : gmap string Z) (state : list Z * Z) :
  assemble_step symtable end_statement state = Ok state.
Proof. destruct state. reflexivity. Qed.

Lemma symbol_loop_skips_end (pre post : list Statement.t) (state : gmap string Z * Z) :
  symbol_loop (pre ++ end_statement :: post) state = symbol_loop (pre ++ post) state.
Proof.
  revert state. induction pre as [|statement pre IH]; intros state; cbn [app symbol_loop].
  - rewrite symbol_step_end. reflexivity.
  - destruct (symbol_step statement state) as [state'|e]; cbn [bind]; auto.
Qed.

Lemma assemble_loop_skips_end (symtable : gmap string Z) (pre post : list Statement.t)
    (state : list Z * Z) :
  assemble_loop symtable (pre ++ end_statement :: post) state
    = assemble_loop symtable (pre ++ post) state.
Proof.
  revert state. induction pre as [|statement pre IH]; intros state; cbn [app assemble_loop].
  - rewrite assemble_step_end. reflexivity.
  - destruct (assemble_step symtable statement state) as [state'|e]; cbn [bind]; auto.
Qed.

(** C5, amended.  An End statement changes nothing in either pass: the
    statements after it are read like those before it, and taking the End
    statement out of a sequence changes neither the symbol table (or the
    error) of pass 1 nor the words (or the error) of pass 2. *)
Theorem end_is_skipped_by_both_passes (pre post : list Statement.t)
    (symtable : gmap string Z) :
  make_symbol_table (pre ++ end_statement :: post) = make_symbol_table (pre ++ post)
  /\ assemble (pre ++ end_statement :: post) symtable = assemble (pre ++ post) symtable.
Proof.
  unfold make_symbol_table, assemble. rewrite find_orig_skips_end.
  destruct (find_orig (pre ++ post)) as [[location_counter|]|e]; cbn [bind];
    try (split; reflexivity).
  rewrite symbol_loop_skips_end, assemble_loop_skips_end. split; reflexivity.
Qed.

(** C5 as stated fails: in [.ORIG x3000 / .END / L .FILL #7] the label
    declared after End enters the symbol table and the word after End is
    emitted, where the statements up to End give an empty table and the
    origin word alone. *)
Lemma statements_after_end_are_read :
  (lexed <- lex unquote [".ORIG x3000"; ".END"; "L .FILL #7"];; parse lexed)
    = Ok program_after_end
  /\ upto_end program_after_end = [orig_statement 12288]
  /\ make_symbol_table program_after_end = Ok {["L" := 12288]}
  /\ assemble program_after_end {["L" := 12288]} = Ok [12288; 7]
  /\ make_symbol_table (upto_end program_after_end) = Ok ∅
  /\ assemble (upto_end program_after_end) {["L" := 12288]} = Ok [12288]
  /\ make_symbol_table program_after_end <> make_symbol_table (upto_end program_after_end)
  /\ assemble program_after_end {["L" := 12288]}
       <> assemble (upto_end program_after_end) {["L" := 12288]}.
Proof.
  assert (Htable : make_symbol_table program_after_end = Ok {["L" := 12288]})
    by (vm_compute; reflexivity).
  assert (Hshort : make_symbol_table (upto_end program_after_end) = Ok ∅)
    by (vm_compute; reflexivity).
  assert (Hwords : assemble program_after_end {["L" := 12288]} = Ok [12288; 7])
    by (vm_compute; reflexivity).
  assert (Hfew : assemble (upto_end program_after_end) {["L" := 12288]} = Ok [12288])
    by (vm_compute; reflexivity).
  split; [vm_compute; reflexivity|]. split; [vm_compute; reflexivity|].
  split; [exact Htable|]. split; [exact Hwords|].
  split; [exact Hshort|]. split; [exact Hfew|].
  split.
  - rewrite Htable, Hshort. intros H.
    assert (Hl : ({["L" := 12288]} : gmap string Z) !! "L" = (∅ : gmap string Z) !! "L")
      by congruence.
    rewrite lookup_singleton_eq, lookup_empty in Hl. discriminate Hl.
  - rewrite Hwords, Hfew. discriminate.
Qed.

(** ** The missing origin *)

Lemma find_orig_none (statements : list Statement.t) :
  find_orig statements = Ok None
  <-> Forall (fun statement => is_directive "ORIG" statement = Ok false) statements.
Proof.
  induction statements as [|statement rest IH]; cbn [find_orig].
  - split; [constructor | reflexivity].
  - destruct (is_directive "ORIG" statement) as [[]|e] eqn:E; cbn [bind].
    + split.
      * destruct (getattr "address" (Statement.address statement)); discriminate.
      * intros H. inversion H; subst. congruence.
    + rewrite IH. split.
      * intros H. constructor; assumption.
      * intros H. inversion H; assumption.
    + split; [discriminate|]. intros H. inversion H; subst. congruence.
Qed.

Lemma find_orig_not_missing (statements : list Statement.t) :
  find_orig statements <> Raise missing_orig.
Proof.
  induction statements as [|statement rest IH]; cbn [find_orig]; [discriminate|].
  unfold is_directive.
  destruct (String.eqb (Statement.statement_type statement) "DIRECTIVE"); cbn [bind].
  - destruct (Statement.directive_type statement) as [d|]; cbn [getattr bind];
      [|discriminate].
    destruct (String.eqb d "ORIG"); [|exact IH].
    destruct (Statement.address statement); cbn [getattr bind]; discriminate.
  - exact IH.
Qed.

Lemma size_of_ins_not_missing (statement : Statement.t) :
  size_of_ins statement <> Raise missing_orig.
Proof.
  unfold size_of_ins.
  repeat match goal with
  | |- context [if ?b then _ else _] => destruct b
  | |- context [getattr _ ?f] => destruct f; cbn [getattr bind]
  | |- context [py_len ?v] => destruct v; cbn [py_len bind]
  end; discriminate.
Qed.

Lemma symbol_step_not_missing (statement : Statement.t) (state : gmap string Z * Z) :
  symbol_step statement state <> Raise missing_orig.
Proof.
  destruct state as [symbol_table location_counter]. unfold symbol_step, is_directive.
  pose proof (size_of_ins_not_missing statement) as Hsize.
  destruct (size_of_ins statement) as [[n|]|e].
  all: repeat match goal with
  | |- context [if ?b then _ else _] => destruct b; cbn [bind]
  | |- context [getattr _ ?f] => destruct f; cbn [getattr bind]
  | |- context [match ?m !! ?k with _ => _ end] => destruct (m !! k)
  end; try discriminate.
  all: intros [= ->]; apply Hsize; reflexivity.
Qed.

Lemma symbol_loop_not_missing (statements : list Statement.t) (state : gmap string Z * Z) :
  symbol_loop statements state <> Raise missing_orig.
Proof.
  revert state. induction statements as [|statement rest IH]; intros state;
    cbn [symbol_loop]; [discriminate|].
  pose proof (symbol_step_not_missing statement state) as H.
  destruct (symbol_step statement state) as [state'|e]; cbn [bind]; [apply IH | exact H].
Qed.

(** C6, amended.  Pass 1 fails with the missing-origin error exactly when
    the sequence holds no Origin statement at all; an Origin anywhere in the
    sequence, also after emitting statements, is found and gives the
    initial location counter. *)
Theorem missing_orig_iff_no_origin (statements : list Statement.t) :
  make_symbol_table statements = Raise missing_orig
  <-> Forall (fun statement => is_directive "ORIG" statement = Ok false) statements.
Proof.
  rewrite <- find_orig_none. unfold make_symbol_table.
  pose proof (find_orig_not_missing statements) as Hf.
  destruct (find_orig statements) as [[location_counter|]|e]; cbn [bind].
  - split; [|discriminate]. intros H. exfalso.
    pose proof (symbol_loop_not_missing statements (∅, location_counter)) as Hl.
    destruct (symbol_loop statements (∅, location_counter)); cbn [bind] in H;
      [discriminate | injection H as ->; apply Hl; reflexivity].
  - split; reflexivity.
  - split; [intros [= ->]; exfalso; apply Hf; reflexivity | discriminate].
Qed.

Lemma missing_orig_iff_no_origin_witness :
  make_symbol_table [label_statement "A"; fill_statement 0] = Raise missing_orig.
Proof.
  apply (proj2 (missing_orig_iff_no_origin [label_statement "A"; fill_statement 0])).
  repeat constructor.
Defined.

(** C6 as stated fails: in [A .FILL #0 / .ORIG x3000] no Origin precedes the
    first emitting statement, and pass 1 returns a symbol table, the label
    at the address of the later Origin. *)
Lemma origin_after_emitting_is_accepted :
  (lexed <- lex unquote ["A .FILL #0"; ".ORIG x3000"];; parse lexed)
    = Ok program_late_origin
  /\ origin_precedes_emitting program_late_origin = false
  /\ make_symbol_table program_late_origin = Ok {["A" := 12288]}
  /\ make_symbol_table program_late_origin <> Raise missing_orig.
Proof.
  assert (Htable : make_symbol_table program_late_origin = Ok {["A" := 12288]})
    by (vm_compute; reflexivity).
  split; [vm_compute; reflexivity|]. split; [vm_compute; reflexivity|].
  split; [exact Htable|]. rewrite Htable. discriminate.
Qed.

(** ** PC-relative offsets *)

(** Two's complement in [w + 1] bits of a negative number, as
    [generate_pcoffset9] and [generate_pcoffset11] build it: the sign bit
    over the low [w] bits. *)
Lemma sign_bit_over_low_bits (w x : Z) :
  0 <= w -> - 2 ^ w <= x < 0 ->
  Z.lor (Z.shiftl 1 w) (Z.land (Z.ones w) x) = x mod 2 ^ (w + 1).
Proof.
  intros Hw Hx.
  assert (Hpos : 0 < 2 ^ w) by (apply Z.pow_pos_nonneg; lia).
  rewrite Z.shiftl_1_l, Z.land_comm, Z.land_ones by lia.
  assert (Hlow : x mod 2 ^ w = x + 2 ^ w).
  { symmetry. apply Z.mod_unique with (q := -1); lia. }
  assert (Hp : 2 ^ (w + 1) = 2 * 2 ^ w) by (rewrite Z.pow_add_r by lia; lia).
  assert (Hfull : x mod 2 ^ (w + 1) = x + 2 ^ (w + 1)).
  { symmetry. apply Z.mod_unique with (q := -1); lia. }
  rewrite Hlow, Hfull, Hp.
  rewrite <- Z.lxor_lor, <- Z.add_nocarry_lxor; [lia| |].
  all: apply Z.bits_inj'; intros i Hi;
    rewrite Z.land_spec, Z.pow2_bits_eqb, Z.bits_0 by lia;
    destruct (Z.eqb_spec w i) as [<-|Hne]; [|reflexivity];
    cbn [andb];
    destruct (Z.eq_dec (x + 2 ^ w) 0) as [->|Hnz]; [apply Z.bits_0|];
    apply Z.bits_above_log2; [lia|]; apply Z.log2_lt_pow2; lia.
Qed.

Lemma generate_pcoffset9_spec (label : string) (symtable : gmap string Z) (pc address : Z) :
  symtable !! label = Some address ->
  generate_pcoffset9 label symtable pc
    = if (- 2 ^ 8 <=? address - pc) && (address - pc <? 2 ^ 8)
      then Ok ((address - pc) mod 2 ^ 9)
      else Raise (pcoffset_error 9 pc label address).
Proof.
  intros Hl. unfold generate_pcoffset9, lookup_label. rewrite Hl. cbn [bind].
  change (- 2 ^ 8) with (-256). change (2 ^ 8) with 256. change (2 ^ 9) with 512.
  destruct (Z.ltb_spec (address - pc) (-256)); cbn [orb].
  { replace (-256 <=? address - pc) with false by (symmetry; apply Z.leb_gt; lia).
    reflexivity. }
  replace (-256 <=? address - pc) with true by (symmetry; apply Z.leb_le; lia).
  cbn [andb]. unfold Z.gtb.
  destruct (Z.compare_spec (address - pc) 255) as [E|E|E].
  - destruct (Z.ltb_spec (address - pc) 256); [|lia].
    destruct (Z.ltb_spec (address - pc) 0); [lia|]. rewrite Z.mod_small by lia. reflexivity.
  - destruct (Z.ltb_spec (address - pc) 256); [|lia].
    destruct (Z.ltb_spec (address - pc) 0).
    + f_equal. apply (sign_bit_over_low_bits 8); lia.
    + rewrite Z.mod_small by lia. reflexivity.
  - destruct (Z.ltb_spec (address - pc) 256); [lia|]. reflexivity.
Qed.

Lemma generate_pcoffset11_spec (label : string) (symtable : gmap string Z) (pc address : Z) :
  symtable !! label = Some address ->
  generate_pcoffset11 label symtable pc
    = if (- 2 ^ 10 <=? address - pc) && (address - pc <? 2 ^ 10)
      then Ok ((address - pc) mod 2 ^ 11)
      else Raise (pcoffset_error 11 pc label address).
Proof.
  intros Hl. unfold generate_pcoffset11, lookup_label. rewrite Hl. cbn [bind].
  change (- 2 ^ 10) with (-1024). change (2 ^ 10) with 1024. change (2 ^ 11) with 2048.
  destruct (Z.ltb_spec (address - pc) (-1024)); cbn [orb].
  { replace (-1024 <=? address - pc) with false by (symmetry; apply Z.leb_gt; lia).
    reflexivity. }
  replace (-1024 <=? address - pc) with true by (symmetry; apply Z.leb_le; lia).
  cbn [andb]. unfold Z.gtb.
  destruct (Z.compare_spec (address - pc) 1023) as [E|E|E].
  - destruct (Z.ltb_spec (address - pc) 1024); [|lia].
    destruct (Z.ltb_spec (address - pc) 0); [lia|]. rewrite Z.mod_small by lia. reflexivity.
  - destruct (Z.ltb_spec (address - pc) 1024); [|lia].
    destruct (Z.ltb_spec (address - pc) 0).
    + f_equal. apply (sign_bit_over_low_bits 10); lia.
    + rewrite Z.mod_small by lia. reflexivity.
  - destruct (Z.ltb_spec (address - pc) 1024); [lia|]. reflexivity.
Qed.

(** A field shifted to bit [k] or above leaves the low [w <= k] bits clear. *)
Lemma shiftl_clear_below (a k w : Z) :
  0 <= w <= k -> Z.land (Z.shiftl a k) (Z.ones w) = 0.
Proof.
  intros H. rewrite Z.land_ones, Z.shiftl_mul_pow2 by lia.
  replace k with ((k - w) + w) by lia. rewrite Z.pow_add_r by lia.
  rewrite Z.mul_assoc. apply Z.mod_mul. apply Z.pow_nonzero; lia.
Qed.

(** The low [w] bits of a word whose other fields sit above them. *)
Lemma low_field (high field w : Z) :
  0 <= w -> Z.land high (Z.ones w) = 0 -> 0 <= field < 2 ^ w ->
  Z.land (Z.lor high (Z.shiftl field 0)) (Z.ones w) = field.
Proof.
  intros Hw Hh Hf. rewrite Z.shiftl_0_r, Z.land_lor_distr_l, Hh, Z.lor_0_l.
  rewrite Z.land_ones by lia. apply Z.mod_small. exact Hf.
Qed.

Lemma lor_clear_below (a b w : Z) :
  Z.land a (Z.ones w) = 0 -> Z.land b (Z.ones w) = 0 -> Z.land (Z.lor a b) (Z.ones w) = 0.
Proof. intros Ha Hb. rewrite Z.land_lor_distr_l, Ha, Hb. reflexivity. Qed.

Create HintDb fields.
#[local] Hint Resolve lor_clear_below : fields.
#[local] Hint Extern 1 (Z.land (Z.shiftl _ _) (Z.ones _) = 0) =>
  apply shiftl_clear_below; lia : fields.

(** C7. A PC-relative instruction (BR with any accepted suffix, LD, LDI,
    LEA, ST, STI, JSR) that pass 2 meets at location counter [lc] and that
    references a label defined at [address]: when [address - (lc + 1)] fits
    the slot (-256..255 for the 9-bit slot, -1024..1023 for the 11-bit
    slot), one word is emitted, the counter advances by one, and the offset
    field of the word is [address - (lc + 1)] in two's complement on the
    width of the slot; otherwise the step raises the error that names the
    PC [lc + 1], the label and the address. *)
Theorem pc_relative_offset_field (label : string) (statement : Statement.t) (width : Z)
    (symtable : gmap string Z) (machine_instructions : list Z) (lc address : Z) :
  pc_relative label statement width ->
  symtable !! label = Some address ->
  if (- 2 ^ (width - 1) <=? address - (lc + 1)) && (address - (lc + 1) <? 2 ^ (width - 1))
  then
    exists word : Z,
      assemble_step symtable statement (machine_instructions, lc)
        = Ok (machine_instructions ++ [word], lc + 1)
      /\ Z.land word (Z.ones width) = (address - (lc + 1)) mod 2 ^ width
  else
    assemble_step symtable statement (machine_instructions, lc)
      = Raise (pcoffset_error width (lc + 1) label address).
Proof.
  intros Hrel Hl.
  pose proof (generate_pcoffset9_spec label symtable (lc + 1) address Hl) as H9.
  pose proof (generate_pcoffset11_spec label symtable (lc + 1) address Hl) as H11.
  assert (Hm9 : 0 <= (address - (lc + 1)) mod 2 ^ 9 < 2 ^ 9) by (apply Z.mod_pos_bound; lia).
  assert (Hm11 : 0 <= (address - (lc + 1)) mod 2 ^ 11 < 2 ^ 11) by (apply Z.mod_pos_bound; lia).
  destruct Hrel as [suffix Hin | mnemonic name reg Hin | ].
  - change (9 - 1) with 8.
    cbn in Hin.
    repeat (destruct Hin as [<- | Hin]); try contradiction.
    all: unfold assemble_step, assemble_statement, br_statement, instruction_statement,
           generate_BR; eval_names;
         cbn -[generate_pcoffset9 Z.pow]; rewrite H9;
         destruct ((- 2 ^ 8 <=? address - (lc + 1)) && (address - (lc + 1) <? 2 ^ 8));
         cbn [bind]; [|reflexivity];
         eexists; (split; [reflexivity|]);
         apply low_field; [lia | auto 10 with fields | exact Hm9].
  - change (9 - 1) with 8.
    cbn in Hin.
    repeat (destruct Hin as [<- | Hin]); try contradiction.
    all: unfold assemble_step, assemble_statement, reg_label_statement, instruction_statement,
           generate_LD, generate_LDI, generate_LEA, generate_ST, generate_STI,
           generate_bmins_SR_PCoffset9, generate_bmins_DR_PCoffset9;
         cbn -[generate_pcoffset9 Z.pow]; rewrite H9;
         destruct ((- 2 ^ 8 <=? address - (lc + 1)) && (address - (lc + 1) <? 2 ^ 8));
         cbn [bind]; [|reflexivity];
         eexists; (split; [reflexivity|]);
         apply low_field; [lia | auto 10 with fields | exact Hm9].
  - change (11 - 1) with 10.
    unfold assemble_step, assemble_statement, jsr_statement, instruction_statement,
      generate_JSR.
    cbn -[generate_pcoffset11 Z.pow]. rewrite H11.
    destruct ((- 2 ^ 10 <=? address - (lc + 1)) && (address - (lc + 1) <? 2 ^ 10));
      cbn [bind]; [|reflexivity].
    eexists; (split; [reflexivity|]).
    apply low_field; [lia | auto 10 with fields | exact Hm11].
Qed.

Lemma pc_relative_offset_field_witness :
  exists word : Z,
    assemble_step {["LOOP" := 12288]} (br_statement "p" "LOOP") ([12288; 4735], 12289)
      = Ok ([12288; 4735] ++ [word], 12289 + 1)
    /\ Z.land word (Z.ones 9) = (12288 - (12289 + 1)) mod 2 ^ 9.
Proof.
  refine (pc_relative_offset_field "LOOP" (br_statement "p" "LOOP") 9
            {["LOOP" := 12288]} [12288; 4735] 12289 12288 _ _).
  - apply (pc_relative_BR "LOOP" "p"). cbn. tauto.
  - reflexivity.
Defined.

(** A JSR one past the edge of the 11-bit slot. *)
Example jsr_one_past_the_edge :
  assemble_step {["FAR" := 13313]} (jsr_statement "FAR") ([12288], 12288)
    = Raise (Exception
               "Jump from PC (12289) to label FAR (13313) does not fit within PCoffset11.").
Proof. vm_compute. reflexivity. Qed.

(** ** Hex tokens *)

Lemma hexdigit_facts (c : ascii) :
  is_hexdigit c = true ->
  (exists d, digit_value c = Some d /\ 0 <= d < 16)
  /\ char_in c "0x" = Ascii.eqb c "0"
  /\ c <> "-"%char /\ c <> "+"%char
  /\ (Ascii.eqb c "0" = true -> digit_value c = Some 0).
Proof.
  destruct c as [[] [] [] [] [] [] [] []]; intros H;
    try (exfalso; vm_compute in H; discriminate H).
  all: split; [eexists; split; [vm_compute; reflexivity | lia]|].
  all: split; [reflexivity|].
  all: split; [discriminate|]. 
  all: split; [discriminate|].
  all: intros E; try (vm_compute in E; discriminate E); reflexivity.
Qed.

Lemma span_forall (p : ascii -> bool) (s : string) : str_forall p (span p s) = true.
Proof.
  induction s as [|c rest IH]; cbn [span]; [reflexivity|].
  destruct (p c) eqn:E; cbn [str_forall]; [rewrite E, IH|]; reflexivity.
Qed.

Lemma match_plus_forall (p : ascii -> bool) (s text : string) :
  match_plus p s = Some text -> str_forall p text = true /\ text <> EmptyString.
Proof.
  unfold match_plus. pose proof (span_forall p s) as H.
  destruct (span p s) as [|c r]; [discriminate|]. intros [= <-]. split; [exact H | discriminate].
Qed.

Lemma parse_digits_hex (digits : string) (acc : Z) :
  str_forall is_hexdigit digits = true ->
  parse_digits 16 digits acc = Some (hex_value digits acc).
Proof.
  revert acc. induction digits as [|c rest IH]; intros acc H; [reflexivity|].
  cbn [str_forall] in H. apply andb_prop in H as [Hc Hrest].
  destruct (hexdigit_facts c Hc) as [[d [Hd Hlt]] _].
  cbn [parse_digits hex_value]. rewrite Hd.
  replace (d <? 16) with true by (symmetry; apply Z.ltb_lt; lia).
  apply IH, Hrest.
Qed.

(** [lstrip('0x')] on hex digits removes the leading zeros, which do not
    change the value; what is left is empty exactly when every digit is a
    zero. *)
Lemma lstrip_hex_digits (digits : string) :
  str_forall is_hexdigit digits = true ->
  str_forall is_hexdigit (lstrip "0x" digits) = true
  /\ hex_value (lstrip "0x" digits) 0 = hex_value digits 0
  /\ (lstrip "0x" digits = EmptyString <-> str_forall (Ascii.eqb "0") digits = true)
  /\ (forall c rest, lstrip "0x" digits = String c rest -> c <> "-"%char /\ c <> "+"%char).
Proof.
  induction digits as [|c rest IH]; intros H.
  - cbn. split; [reflexivity|]. split; [reflexivity|].
    split; [split; reflexivity | discriminate].
  - cbn [str_forall] in H. apply andb_prop in H as [Hc Hrest].
    destruct (hexdigit_facts c Hc) as (_ & Hin & Hm & Hp & Hz).
    specialize (IH Hrest) as (IH1 & IH2 & IH3 & IH4).
    cbn [lstrip]. rewrite Hin.
    cbn [str_forall]. rewrite (Ascii.eqb_sym "0" c).
    destruct (Ascii.eqb c "0") eqn:E.
    + cbn [andb hex_value]. rewrite (Hz eq_refl).
      change (0 * 16 + 0) with 0.
      split; [exact IH1|]. split; [exact IH2|]. split; [exact IH3 | exact IH4].
    + cbn [andb str_forall]. rewrite Hc, Hrest.
      split; [reflexivity|]. split; [reflexivity|].
      split; [split; discriminate|].
      intros c' rest' [= <- <-]. split; assumption.
Qed.

(** The value the lexer gives a token whose text the HEX pattern matched:
    a [ValueError] when every digit is a zero, otherwise the unsigned value
    of the digit string, leading zeros or not. *)
Lemma hex_token_value (literal_eval : string -> Result string) (s text : string) :
  match_HEX s = Some text ->
  make_token literal_eval "HEX" text
    = if str_forall (Ascii.eqb "0") (hex_digits text)
      then Raise empty_hex_literal
      else Ok (tok "HEX" text (Some (VInt (hex_value (hex_digits text) 0)))).
Proof.
  intros Hm.
  assert (Hshape : exists digits,
             str_forall is_hexdigit digits = true
             /\ hex_digits text = digits
             /\ lstrip "0x" text = lstrip "0x" digits).
  { unfold match_HEX in Hm.
    destruct s as [|c s1]; [discriminate|].
    destruct (Ascii.eqb_spec c "0") as [->|H0].
    - destruct s1 as [|c1 s2]; [discriminate|].
      destruct (Ascii.eqb_spec c1 "x") as [->|Hx].
      + destruct (match_plus is_hexdigit s2) as [digits|] eqn:E; [|discriminate].
        injection Hm as <-. exists digits.
        split; [apply (match_plus_forall _ _ _ E)|]. split; reflexivity.
      + exfalso. destruct c1 as [[] [] [] [] [] [] [] []]; try discriminate Hm.
        apply Hx; reflexivity.
    - destruct (Ascii.eqb_spec c "x") as [->|Hx].
      + destruct (match_plus is_hexdigit s1) as [digits|] eqn:E; [|discriminate].
        injection Hm as <-. exists digits.
        split; [apply (match_plus_forall _ _ _ E)|]. split; reflexivity.
      + exfalso. destruct c as [[] [] [] [] [] [] [] []]; try discriminate Hm.
        * apply Hx; reflexivity.
        * apply H0; reflexivity. }
  destruct Hshape as (digits & Hall & -> & Hstrip).
  destruct (lstrip_hex_digits digits Hall) as (Hall' & Hval & Hempty & Hsign).
  unfold make_token. cbn [String.eqb Ascii.eqb Bool.eqb]. rewrite Hstrip.
  unfold py_int.
  destruct (lstrip "0x" digits) as [|c rest] eqn:E.
  - rewrite (proj1 Hempty eq_refl). reflexivity.
  - destruct (str_forall (Ascii.eqb "0") digits) eqn:Ez;
      [discriminate (proj2 Hempty eq_refl)|].
    destruct (Hsign c rest eq_refl) as [Hm' Hp'].
    pose proof (parse_digits_hex _ 0 Hall') as Hpd. rewrite Hval in Hpd.
    destruct c as [[] [] [] [] [] [] [] []];
      try (exfalso; apply Hm'; reflexivity); try (exfalso; apply Hp'; reflexivity).
    all: cbv beta iota zeta; rewrite Hpd, Z.mul_1_l; reflexivity.
Qed.

Lemma first_pattern_hex (s text : string) :
  first_pattern token_patterns s = Some ("HEX", text) -> match_HEX s = Some text.
Proof.
  unfold token_patterns. cbn [first_pattern].
  destruct (match_WS s); [discriminate|].
  destruct (match_COMMENT s); [discriminate|].
  destruct (match_HEX s); [intros [= <-]; reflexivity|].
  destruct (match_NUMBER s); [discriminate|].
  destruct (match_STRING s); [discriminate|].
  destruct (match_OPCODE s); [discriminate|].
  destruct (match_DIRECTIVE s); [discriminate|].
  destruct (match_REGISTER s); [discriminate|].
  destruct (match_LABEL s); [discriminate|].
  destruct (match_IDENTIFIER s); discriminate.
Qed.

Lemma make_token_fields (literal_eval : string -> Result string)
    (token_type text : string) (token : Token.t) :
  make_token literal_eval token_type text = Ok token ->
  Token.token_type token = token_type /\ Token.text token = text.
Proof.
  unfold make_token.
  destruct (String.eqb token_type "NUMBER");
    [destruct (py_int (lstrip "#" text) 10); cbn [bind]; [intros [= <-]; auto | discriminate]|].
  destruct (String.eqb token_type "HEX");
    [destruct (py_int (lstrip "0x" text) 16); cbn [bind]; [intros [= <-]; auto | discriminate]|].
  destruct (String.eqb token_type "STRING");
    [destruct (literal_eval text); cbn [bind]; [intros [= <-]; auto | discriminate]|].
  intros [= <-]; auto.
Qed.

Lemma lex_loop_hex_made (literal_eval : string -> Result string) (line s : string)
    (skip : nat) (tokens result : list Token.t) :
  Forall (hex_made literal_eval) tokens ->
  lex_loop literal_eval line s skip tokens = Ok result ->
  Forall (hex_made literal_eval) result.
Proof.
  revert skip tokens. induction s as [|c rest IH]; intros skip tokens Hall; cbn [lex_loop].
  - intros [= <-]. exact Hall.
  - destruct skip as [|k]; [|apply IH; exact Hall].
    destruct (first_pattern token_patterns (String c rest)) as [[token_type text]|] eqn:Ep;
      [|discriminate].
    destruct (make_token literal_eval token_type text) as [token|e] eqn:Em;
      cbn [bind]; [|discriminate].
    apply IH. apply Forall_app. split; [exact Hall|].
    constructor; [|constructor].
    destruct (make_token_fields _ _ _ _ Em) as [Hty Htext].
    intros Hhex. rewrite Hty in Hhex. rewrite Hhex in Ep, Em.
    exists (String c rest). rewrite Htext. split; [apply first_pattern_hex, Ep | exact Em].
Qed.

(** The part of C8 that holds: every Hex token of a line the lexer accepts
    carries the unsigned value of its digit string, leading zeros or not;
    and its digits are not all zeros. *)
Lemma accepted_hex_tokens_carry_their_value (literal_eval : string -> Result string)
    (line : string) (tokens : list Token.t) :
  lex_line literal_eval line = Ok tokens ->
  Forall (fun token =>
            Token.token_type token = "HEX" ->
            Token.value token = Some (VInt (hex_value (hex_digits (Token.text token)) 0))
            /\ str_forall (Ascii.eqb "0") (hex_digits (Token.text token)) = false)
         tokens.
Proof.
  intros Hlex.
  assert (H : Forall (hex_made literal_eval) tokens)
    by (apply (lex_loop_hex_made literal_eval line line 0 [] tokens); [constructor | exact Hlex]).
  eapply Forall_impl; [exact H|].
  intros token Hmade Hty. destruct (Hmade Hty) as (s & Hm & Hk).
  rewrite (hex_token_value literal_eval s _ Hm) in Hk.
  destruct (str_forall (Ascii.eqb "0") (hex_digits (Token.text token)));
    [discriminate|].
  injection Hk as Hk. rewrite <- Hk at 1. split; reflexivity.
Qed.

(** C8, at the failing input.  The text [x0] matches the HEX pattern, and
    [lstrip('0x')] leaves nothing of it for [int(..., 16)]: the lexer raises
    [ValueError] where the claim has a Hex token of value 0.  The same for
    any hex literal of zeros, as in [.FILL x0000]; [x000F] does carry 15. *)
Theorem hex_zero_raises_value_error (literal_eval : string -> Result string) :
  match_HEX "x0" = Some "x0"
  /\ lex_line literal_eval "x0" = Raise empty_hex_literal
  /\ lex_line literal_eval ".FILL x0000" = Raise empty_hex_literal
  /\ lex_line literal_eval "AND R0,R0,0x0" = Raise empty_hex_literal
  /\ lex_line literal_eval "x000F" = Ok [tok "HEX" "x000F" (Some (VInt 15))]
  /\ assemble_lines literal_eval [".ORIG x3000"; ".FILL x0"; ".END"] = Raise empty_hex_literal.
Proof. repeat split; reflexivity. Qed.

(** * Further properties of the lexer *)

Lemma app_cons (c : ascii) (s t : string) : String c s +:+ t = String c (s +:+ t).
Proof. reflexivity. Qed.

Lemma app_empty_l (s : string) : EmptyString +:+ s = s.
Proof. reflexivity. Qed.

Lemma app_empty_r (s : string) : s +:+ EmptyString = s.
Proof. induction s as [|c s IH]; [reflexivity|]. rewrite app_cons, IH. reflexivity. Qed.

Lemma app_assoc_str (s t u : string) : (s +:+ t) +:+ u = s +:+ (t +:+ u).
Proof. induction s as [|c s IH]; [reflexivity|]. rewrite !app_cons, IH. reflexivity. Qed.

Lemma app_length_str (s t : string) :
  String.length (s +:+ t) = (String.length s + String.length t)%nat.
Proof. induction s as [|c s IH]; [reflexivity|]. rewrite app_cons. cbn [String.length]. rewrite IH. reflexivity. Qed.

Lemma drop_chars_app (s t : string) : drop_chars (String.length s) (s +:+ t) = t.
Proof. induction s as [|c s IH]; [reflexivity|]. rewrite app_cons. exact IH. Qed.

Lemma take_drop_chars (n : nat) (s : string) : take_chars n s +:+ drop_chars n s = s.
Proof.
  revert s. induction n as [|n IH]; intros s; [reflexivity|].
  destruct s as [|c s]; [reflexivity|]. cbn [take_chars drop_chars]. rewrite app_cons, IH.
  reflexivity.
Qed.

Lemma matched_intro (text rest : string) :
  text <> EmptyString -> matched (text +:+ rest) text.
Proof. intros H. split; [exact H|]. rewrite drop_chars_app. reflexivity. Qed.

Lemma span_prefix (p : ascii -> bool) (s : string) :
  s = span p s +:+ drop_chars (String.length (span p s)) s.
Proof.
  induction s as [|c s IH]; [reflexivity|]. cbn [span].
  destruct (p c); [|reflexivity].
  rewrite app_cons. cbn [String.length drop_chars]. rewrite <- IH. reflexivity.
Qed.

Lemma match_plus_matched (p : ascii -> bool) (s text : string) :
  match_plus p s = Some text -> matched s text.
Proof.
  unfold match_plus. pose proof (span_prefix p s) as H.
  destruct (span p s) as [|c r] eqn:E; [discriminate|]. intros [= <-].
  split; [discriminate | exact H].
Qed.

Lemma matched_cons (c : ascii) (s text : string) :
  s = text +:+ drop_chars (String.length text) s ->
  matched (String c s) (String c text).
Proof.
  intros H. split; [discriminate|]. rewrite app_cons. cbn [String.length drop_chars].
  rewrite <- H. reflexivity.
Qed.

Lemma matched_prepend (prefix s text : string) :
  prefix <> EmptyString ->
  s = text +:+ drop_chars (String.length text) s ->
  matched (prefix +:+ s) (prefix +:+ text).
Proof.
  intros Hne H. split.
  - destruct prefix; [contradiction | discriminate].
  - rewrite H at 1. rewrite app_assoc_str. f_equal.
    rewrite app_length_str.
    assert (Hd : forall a b, drop_chars (String.length a + b) (a +:+ s) = drop_chars b s).
    { induction a as [|x a IHa]; intros b; [reflexivity|]. rewrite app_cons. apply IHa. }
    rewrite Hd. reflexivity.
Qed.

Lemma match_WS_matched (s text : string) : match_WS s = Some text -> matched s text.
Proof. apply match_plus_matched. Qed.

Lemma match_COMMENT_matched (s text : string) : match_COMMENT s = Some text -> matched s text.
Proof.
  unfold match_COMMENT. destruct s as [|c s]; [discriminate|].
  destruct (Ascii.eqb_spec c ";") as [->|Hne].
  - intros [= <-]. split; [discriminate|].
    assert (Hd : forall t, drop_chars (String.length t) t = EmptyString)
      by (induction t; [reflexivity | assumption]).
    rewrite Hd, app_empty_r. reflexivity.
  - destruct c as [[] [] [] [] [] [] [] []]; try discriminate. contradiction Hne; reflexivity.
Qed.

Lemma match_HEX_matched (s text : string) : match_HEX s = Some text -> matched s text.
Proof.
  unfold match_HEX. destruct s as [|c s1]; [discriminate|].
  destruct (Ascii.eqb_spec c "0") as [->|H0].
  - destruct s1 as [|c1 s2]; [discriminate|].
    destruct (Ascii.eqb_spec c1 "x") as [->|Hx].
    + destruct (match_plus is_hexdigit s2) as [digits|] eqn:E; [|discriminate].
      intros [= <-]. apply match_plus_matched in E as [_ E].
      apply (matched_prepend "0x" s2 digits); [discriminate | exact E].
    + destruct c1 as [[] [] [] [] [] [] [] []]; try discriminate.
      contradiction Hx; reflexivity.
  - destruct (Ascii.eqb_spec c "x") as [->|Hx].
    + destruct (match_plus is_hexdigit s1) as [digits|] eqn:E; [|discriminate].
      intros [= <-]. apply match_plus_matched in E as [_ E].
      apply (matched_prepend "x" s1 digits); [discriminate | exact E].
    + destruct c as [[] [] [] [] [] [] [] []]; try discriminate.
      * contradiction Hx; reflexivity.
      * contradiction H0; reflexivity.
Qed.

(** The shape of a text the NUMBER pattern matches: one of the four
    prefixes, then the digits. *)
Lemma match_NUMBER_shape (s text : string) :
  match_NUMBER s = Some text ->
  exists sign digits s',
    In sign [EmptyString; "#"; "-"; "#-"]
    /\ text = sign +:+ digits /\ s = sign +:+ s'
    /\ match_plus is_digit s' = Some digits.
Proof.
  unfold match_NUMBER.
  destruct s as [|c s1]; [discriminate|].
  destruct (Ascii.eqb_spec c "#") as [->|Hh].
  - destruct s1 as [|c1 s2]; [cbn; discriminate|].
    destruct (Ascii.eqb_spec c1 "-") as [->|Hm].
    + destruct (match_plus is_digit s2) as [digits|] eqn:E; [|discriminate].
      intros [= <-]. exists "#-", digits, s2. cbn [In]. auto 10.
    + assert (Hsame : (let '(minus, s2') :=
                         match String c1 s2 with
                         | String "-" rest => ("-", rest)
                         | _ => (EmptyString, String c1 s2)
                         end in
                       match match_plus is_digit s2' with
                       | Some digits => Some ("#" +:+ minus +:+ digits)
                       | None => None
                       end)
                      = match match_plus is_digit (String c1 s2) with
                        | Some digits => Some ("#" +:+ digits)
                        | None => None
                        end).
      { destruct c1 as [[] [] [] [] [] [] [] []]; try reflexivity.
        contradiction Hm; reflexivity. }
      cbv beta iota zeta. cbv beta iota zeta in Hsame. rewrite Hsame.
      destruct (match_plus is_digit (String c1 s2)) as [digits|] eqn:E; [|discriminate].
      intros [= <-]. exists "#", digits, (String c1 s2). cbn [In]. auto 10.
  - destruct (Ascii.eqb_spec c "-") as [->|Hm].
    + destruct (match_plus is_digit s1) as [digits|] eqn:E; [|discriminate].
      intros [= <-]. exists "-", digits, s1. cbn [In]. auto 10.
    + assert (Hsame : (let '(hash, s1') :=
                         match String c s1 with
                         | String "#" rest => ("#", rest)
                         | _ => (EmptyString, String c s1)
                         end in
                       let '(minus, s2') :=
                         match s1' with
                         | String "-" rest => ("-", rest)
                         | _ => (EmptyString, s1')
                         end in
                       match match_plus is_digit s2' with
                       | Some digits => Some (hash +:+ minus +:+ digits)
                       | None => None
                       end)
                      = match_plus is_digit (String c s1)).
      { destruct c as [[] [] [] [] [] [] [] []];
          try (contradiction Hm; reflexivity); try (contradiction Hh; reflexivity).
        all: cbv beta iota zeta; destruct (match_plus is_digit _); reflexivity. }
      cbv beta iota zeta in Hsame. rewrite Hsame.
      intros E. exists EmptyString, text, (String c s1). cbn [In]. auto 10.
Qed.

Lemma matched_after (sign s' digits : string) :
  matched s' digits -> matched (sign +:+ s') (sign +:+ digits).
Proof.
  intros [Hne H]. destruct sign as [|c sign].
  - split; assumption.
  - apply (matched_prepend (String c sign) s' digits); [discriminate | exact H].
Qed.

Lemma match_NUMBER_matched (s text : string) : match_NUMBER s = Some text -> matched s text.
Proof.
  intros H. destruct (match_NUMBER_shape s text H) as (sign & digits & s' & _ & -> & -> & E).
  apply matched_after. apply (match_plus_matched _ _ _ E).
Qed.

Lemma match_string_body_cons (c : ascii) (rest : string) :
  match_string_body (String c rest)
    = if Ascii.eqb c dquote then Some (String c EmptyString)
      else if Ascii.eqb c backslash then
        match rest with
        | String d rest' =>
            match match_string_body rest' with
            | Some body => Some (String c (String d body))
            | None => None
            end
        | EmptyString => None
        end
      else
        match match_string_body rest with
        | Some body => Some (String c body)
        | None => None
        end.
Proof. reflexivity. Qed.

Lemma match_string_body_prefix (s body : string) :
  match_string_body s = Some body ->
  s = body +:+ drop_chars (String.length body) s.
Proof.
  revert body.
  enough (H : (forall body, match_string_body s = Some body ->
                 s = body +:+ drop_chars (String.length body) s)
              /\ (forall c body, match_string_body (String c s) = Some body ->
                    String c s = body +:+ drop_chars (String.length body) (String c s)))
    by apply H.
  induction s as [|d s [IH1 IH2]].
  - split; [discriminate|]. intros c body. rewrite match_string_body_cons.
    destruct (Ascii.eqb c dquote); [intros [= <-]; reflexivity|].
    destruct (Ascii.eqb c backslash); discriminate.
  - split; [apply IH2|]. intros c body. rewrite match_string_body_cons.
    destruct (Ascii.eqb c dquote); [intros [= <-]; reflexivity|].
    destruct (Ascii.eqb c backslash).
    + destruct (match_string_body s) as [b|] eqn:E; [|discriminate].
      intros [= <-]. rewrite !app_cons. cbn [String.length drop_chars].
      rewrite <- (IH1 b eq_refl). reflexivity.
    + destruct (match_string_body (String d s)) as [b|] eqn:E; [|discriminate].
      intros [= <-]. rewrite app_cons. cbn [String.length drop_chars].
      rewrite <- (IH2 d b E). reflexivity.
Qed.

Lemma match_STRING_matched (s text : string) : match_STRING s = Some text -> matched s text.
Proof.
  unfold match_STRING. destruct s as [|c s]; [discriminate|].
  destruct (Ascii.eqb c dquote); [|discriminate].
  destruct (match_string_body s) as [body|] eqn:E; [|discriminate].
  intros [= <-]. apply matched_cons. apply match_string_body_prefix, E.
Qed.

Lemma str_map_length (f : ascii -> ascii) (s : string) :
  String.length (str_map f s) = String.length s.
Proof. induction s as [|c s IH]; [reflexivity|]. cbn. rewrite IH. reflexivity. Qed.

Lemma match_literal_ci_matched (lit s text : string) :
  lit <> EmptyString -> match_literal_ci lit s = Some text ->
  matched s text /\ String.length text = String.length lit.
Proof.
  intros Hne. unfold match_literal_ci.
  destruct (String.eqb_spec (upper (take_chars (String.length lit) s)) (upper lit)) as [E|E];
    [|discriminate].
  intros [= <-].
  assert (Hlen : String.length (take_chars (String.length lit) s) = String.length lit).
  { apply (f_equal String.length) in E. unfold upper in E. rewrite !str_map_length in E.
    exact E. }
  split; [|exact Hlen]. split.
  - intros Hempty. rewrite Hempty in Hlen. destruct lit; [contradiction | discriminate].
  - rewrite Hlen. symmetry. apply take_drop_chars.
Qed.

Lemma match_opt_ci_prefix (c : ascii) (s : string) :
  s = match_opt_ci c s +:+ drop_chars (String.length (match_opt_ci c s)) s.
Proof.
  unfold match_opt_ci. destruct s as [|d s]; [reflexivity|].
  destruct (Ascii.eqb (upper_char d) (upper_char c)); reflexivity.
Qed.

Lemma match_BR_matched (s text : string) : match_BR s = Some text -> matched s text.
Proof.
  unfold match_BR. destruct (match_literal_ci "BR" s) as [br|] eqn:E; [|discriminate].
  intros [= <-].
  apply match_literal_ci_matched in E as [[Hne Hbr] Hlen]; [|discriminate].
  change (String.length "BR") with 2%nat in Hlen. rewrite Hlen in Hbr.
  set (s1 := drop_chars 2 s) in *.
  set (n := match_opt_ci "n" s1).
  set (s2 := drop_chars (String.length n) s1).
  set (z := match_opt_ci "z" s2).
  set (s3 := drop_chars (String.length z) s2).
  set (p := match_opt_ci "p" s3).
  assert (H1 : s1 = n +:+ s2) by apply match_opt_ci_prefix.
  assert (H2 : s2 = z +:+ s3) by apply match_opt_ci_prefix.
  assert (H3 : s3 = p +:+ drop_chars (String.length p) s3) by apply match_opt_ci_prefix.
  assert (Hs : s = (br +:+ n +:+ z +:+ p) +:+ drop_chars (String.length p) s3).
  { rewrite !app_assoc_str, <- H3, <- H2, <- H1. exact Hbr. }
  rewrite Hs at 1. apply matched_intro.
  destruct br; [contradiction | discriminate].
Qed.

Lemma match_alt_matched (alts : list (string -> option string)) (s text : string) :
  Forall (fun alt => forall t, alt s = Some t -> matched s t) alts ->
  match_alt alts s = Some text -> matched s text.
Proof.
  induction 1 as [|alt alts Halt _ IH]; cbn [match_alt]; [discriminate|].
  destruct (alt s) as [t|] eqn:E; [intros [= <-]; apply Halt; reflexivity | exact IH].
Qed.

Lemma match_OPCODE_matched (s text : string) : match_OPCODE s = Some text -> matched s text.
Proof.
  apply match_alt_matched.
  repeat (apply List.Forall_cons;
          [first [ apply match_BR_matched
                 | intros t H; apply match_literal_ci_matched in H as [H _];
                   [exact H | discriminate] ]|]).
  apply List.Forall_nil.
Qed.

Lemma match_DIRECTIVE_matched (s text : string) :
  match_DIRECTIVE s = Some text -> matched s text.
Proof.
  apply match_alt_matched.
  repeat (apply List.Forall_cons;
          [intros t H; apply match_literal_ci_matched in H as [H _];
           [exact H | discriminate]|]).
  apply List.Forall_nil.
Qed.

Lemma match_REGISTER_matched (s text : string) :
  match_REGISTER s = Some text -> matched s text.
Proof.
  unfold match_REGISTER. destruct s as [|r [|d rest]]; try discriminate.
  destruct ((Ascii.eqb r "r" || Ascii.eqb r "R") && in_range "0" "6" d); [|discriminate].
  intros [= <-]. split; [discriminate | reflexivity].
Qed.

Lemma match_LABEL_matched (s text : string) : match_LABEL s = Some text -> matched s text.
Proof.
  unfold match_LABEL. destruct (match_plus is_label_char s) as [run|] eqn:E; [|discriminate].
  apply match_plus_matched in E as [Hne Hrun].
  destruct (drop_chars (String.length run) s) as [|c rest] eqn:Ed; [discriminate|].
  destruct (Ascii.eqb_spec c ":") as [->|Hc].
  - intros [= <-].
    replace s with ((run +:+ ":") +:+ rest) at 1
      by (rewrite app_assoc_str; symmetry; exact Hrun).
    apply matched_intro. destruct run; [contradiction | discriminate].
  - destruct c as [[] [] [] [] [] [] [] []]; try discriminate. contradiction Hc; reflexivity.
Qed.

Lemma match_IDENTIFIER_matched (s text : string) :
  match_IDENTIFIER s = Some text -> matched s text.
Proof.
  unfold match_IDENTIFIER. destruct s as [|c s]; [discriminate|].
  destruct (is_alpha c || Ascii.eqb c "_"); [|discriminate].
  intros [= <-]. apply matched_cons, span_prefix.
Qed.

(** Whatever pattern matches first, its text is a non-empty prefix of the
    rest of the line. *)
Lemma first_pattern_matched (s token_type text : string) :
  first_pattern token_patterns s = Some (token_type, text) -> matched s text.
Proof.
  unfold token_patterns. cbn [first_pattern].
  destruct (match_WS s) eqn:E1; [intros [= _ <-]; apply match_WS_matched, E1|].
  destruct (match_COMMENT s) eqn:E2; [intros [= _ <-]; apply match_COMMENT_matched, E2|].
  destruct (match_HEX s) eqn:E3; [intros [= _ <-]; apply match_HEX_matched, E3|].
  destruct (match_NUMBER s) eqn:E4; [intros [= _ <-]; apply match_NUMBER_matched, E4|].
  destruct (match_STRING s) eqn:E5; [intros [= _ <-]; apply match_STRING_matched, E5|].
  destruct (match_OPCODE s) eqn:E6; [intros [= _ <-]; apply match_OPCODE_matched, E6|].
  destruct (match_DIRECTIVE s) eqn:E7; [intros [= _ <-]; apply match_DIRECTIVE_matched, E7|].
  destruct (match_REGISTER s) eqn:E8; [intros [= _ <-]; apply match_REGISTER_matched, E8|].
  destruct (match_LABEL s) eqn:E9; [intros [= _ <-]; apply match_LABEL_matched, E9|].
  destruct (match_IDENTIFIER s) eqn:E10;
    [intros [= _ <-]; apply match_IDENTIFIER_matched, E10 | discriminate].
Qed.

Lemma concat_texts_app (tokens : list Token.t) (token : Token.t) :
  concat_texts (tokens ++ [token]) = concat_texts tokens +:+ Token.text token.
Proof.
  induction tokens as [|t tokens IH]; cbn [app concat_texts].
  - rewrite app_empty_r. reflexivity.
  - rewrite IH, app_assoc_str. reflexivity.
Qed.

Lemma lex_loop_texts (literal_eval : string -> Result string) (line s : string)
    (skip : nat) (tokens result : list Token.t) :
  lex_loop literal_eval line s skip tokens = Ok result ->
  concat_texts result = concat_texts tokens +:+ drop_chars skip s.
Proof.
  revert skip tokens. induction s as [|c rest IH]; intros skip tokens; cbn [lex_loop].
  - intros [= <-]. destruct skip; cbn [drop_chars]; rewrite app_empty_r; reflexivity.
  - destruct skip as [|k]; [|apply IH].
    destruct (first_pattern token_patterns (String c rest)) as [[token_type text]|] eqn:Ep;
      [|discriminate].
    destruct (make_token literal_eval token_type text) as [token|e] eqn:Em;
      cbn [bind]; [|discriminate].
    intros H. apply IH in H. rewrite H, concat_texts_app, app_assoc_str. f_equal.
    destruct (make_token_fields _ _ _ _ Em) as [_ ->].
    destruct (first_pattern_matched _ _ _ Ep) as [Hne Hpre].
    destruct text as [|c' text']; [contradiction|].
    rewrite app_cons in Hpre. cbn [String.length drop_chars] in Hpre.
    injection Hpre as <- Hrest.
    cbn [String.length drop_chars].
    replace (S (String.length text') - 1)%nat with (String.length text') by lia.
    rewrite app_cons. f_equal. symmetry. exact Hrest.
Qed.

Lemma lex_loop_nonempty (literal_eval : string -> Result string) (line s : string)
    (skip : nat) (tokens result : list Token.t) :
  Forall (fun token => Token.text token <> EmptyString) tokens ->
  lex_loop literal_eval line s skip tokens = Ok result ->
  Forall (fun token => Token.text token <> EmptyString) result.
Proof.
  revert skip tokens. induction s as [|c rest IH]; intros skip tokens Hall; cbn [lex_loop].
  - intros [= <-]. exact Hall.
  - destruct skip as [|k]; [|apply IH; exact Hall].
    destruct (first_pattern token_patterns (String c rest)) as [[token_type text]|] eqn:Ep;
      [|discriminate].
    destruct (make_token literal_eval token_type text) as [token|e] eqn:Em;
      cbn [bind]; [|discriminate].
    apply IH. apply Forall_app. split; [exact Hall|].
    constructor; [|constructor].
    destruct (make_token_fields _ _ _ _ Em) as [_ ->].
    apply (first_pattern_matched _ _ _ Ep).
Qed.

(** X1. The lexer loses no character: when a line lexes, the texts of its
    tokens, whitespace and comments included, spell the line again, and no
    token has an empty text. *)
Theorem lex_line_texts_spell_the_line (literal_eval : string -> Result string)
    (line : string) (tokens : list Token.t) :
  lex_line literal_eval line = Ok tokens ->
  concat_texts tokens = line
  /\ Forall (fun token => Token.text token <> EmptyString) tokens.
Proof.
  intros H. split.
  - apply lex_loop_texts in H. exact H.
  - apply (lex_loop_nonempty literal_eval line line 0 [] tokens); [constructor | exact H].
Qed.

Lemma lex_line_texts_spell_the_line_witness :
  concat_texts
    [tok "IDENTIFIER" "LOOP" None; tok "WS" " " None; tok "OPCODE" "ADD" None;
     tok "WS" " " None; tok "REGISTER" "R1" None; tok "WS" "," None;
     tok "NUMBER" "#-1" (Some (VInt (-1)))]
  = "LOOP ADD R1,#-1"
  /\ Forall (fun token => Token.text token <> EmptyString)
       [tok "IDENTIFIER" "LOOP" None; tok "WS" " " None; tok "OPCODE" "ADD" None;
        tok "WS" " " None; tok "REGISTER" "R1" None; tok "WS" "," None;
        tok "NUMBER" "#-1" (Some (VInt (-1)))].
Proof.
  apply (lex_line_texts_spell_the_line unquote "LOOP ADD R1,#-1"). reflexivity.
Defined.

(** ** Number tokens and the failures of the lexer *)











(** * Further properties of the parser *)

Lemma filter_tokens_blank (pre post : list Token.t) (blank : Token.t) :
  is_blank blank = true ->
  filter_tokens (pre ++ blank :: post) = filter_tokens (pre ++ post).
Proof.
  intros H. unfold filter_tokens. rewrite !List.filter_app. cbn [List.filter].
  unfold is_blank in H. rewrite H. reflexivity.
Qed.

(** X4. Whitespace and comments never matter to the parser: a blank token
    put anywhere in a line leaves its parse unchanged, and a line of blank
    tokens only gives no statement. *)
Theorem blank_tokens_are_ignored (pre post : list Token.t) (blank : Token.t) (linenum : Z) :
  is_blank blank = true ->
  parse_line (pre ++ blank :: post) linenum = parse_line (pre ++ post) linenum
  /\ (forallb is_blank pre = true -> parse_line (pre ++ [blank]) linenum = Ok []).
Proof.
  intros H. unfold parse_line. split; [rewrite filter_tokens_blank by exact H; reflexivity|].
  intros Hpre. rewrite (filter_tokens_blank pre [] blank H), app_nil_r.
  replace (filter_tokens pre) with (@nil Token.t); [reflexivity|].
  symmetry. unfold filter_tokens. induction pre as [|t pre IH]; [reflexivity|].
  cbn [forallb] in Hpre. apply andb_prop in Hpre as [Ht Hpre].
  cbn [List.filter]. unfold is_blank in Ht. rewrite Ht. cbn [negb]. apply IH, Hpre.
Qed.

Lemma blank_tokens_are_ignored_witness :
  parse_line ([tok "OPCODE" "RET" None] ++ tok "COMMENT" "; back" None :: []) 3
    = parse_line ([tok "OPCODE" "RET" None] ++ []) 3
  /\ (forallb is_blank [tok "OPCODE" "RET" None] = true ->
      parse_line ([tok "OPCODE" "RET" None] ++ [tok "COMMENT" "; back" None]) 3 = Ok []).
Proof.
  apply (blank_tokens_are_ignored [tok "OPCODE" "RET" None] [] (tok "COMMENT" "; back" None) 3).
  reflexivity.
Defined.

(** The name of a label token is its text before the colon. *)
Lemma rstrip_colon (run : string) :
  str_forall is_label_char run = true -> run <> EmptyString ->
  rstrip ":" (run +:+ ":") = run.
Proof.
  induction run as [|c run IH]; intros Hall Hne; [contradiction|].
  cbn [str_forall] in Hall. apply andb_prop in Hall as [Hc Hrun].
  rewrite app_cons. cbn [rstrip].
  destruct run as [|c' run'].
  - change (rstrip ":" (EmptyString +:+ ":")) with EmptyString.
    assert (Hcolon : char_in c ":" = false).
    { destruct c as [[] [] [] [] [] [] [] []]; try reflexivity.
      vm_compute in Hc. discriminate Hc. }
    rewrite Hcolon. reflexivity.
  - rewrite IH by (assumption || discriminate). reflexivity.
Qed.

Lemma match_LABEL_name (s text : string) :
  match_LABEL s = Some text ->
  exists run, text = run +:+ ":" /\ rstrip ":" text = run
              /\ str_forall is_label_char run = true /\ run <> EmptyString.
Proof.
  unfold match_LABEL. destruct (match_plus is_label_char s) as [run|] eqn:E; [|discriminate].
  apply match_plus_forall in E as [Hall Hne].
  destruct (drop_chars (String.length run) s) as [|c rest]; [discriminate|].
  destruct (Ascii.eqb_spec c ":") as [->|Hc].
  - intros [= <-]. exists run. rewrite rstrip_colon by assumption. auto.
  - destruct c as [[] [] [] [] [] [] [] []]; try discriminate. contradiction Hc; reflexivity.
Qed.

(** X5. A label at the head of a line is split off: the line parses to the
    declaration of the label, named by the text before the colon, followed
    by the parse of the rest of the line; the rest may be empty, and an
    error in the rest is the error of the line. *)
Theorem label_is_split_off (s text : string) (rest : list Token.t) (linenum : Z) :
  match_LABEL s = Some text ->
  exists name,
    text = name +:+ ":"
    /\ parse_line (tok "LABEL" text None :: rest) linenum
       = (statements <- parse_line rest linenum;;
          Ok (label_statement name :: statements)).
Proof.
  intros H. destruct (match_LABEL_name s text H) as (name & Htext & Hstrip & _).
  exists name. split; [exact Htext|].
  unfold parse_line.
  change (filter_tokens (tok "LABEL" text None :: rest))
    with (tok "LABEL" text None :: filter_tokens rest).
  destruct (filter_tokens rest) as [|token2 rest'] eqn:E.
  - cbn. rewrite Hstrip. reflexivity.
  - cbn. rewrite Hstrip.
    destruct (parse_filtered (token2 :: rest') linenum); reflexivity.
Qed.

Lemma label_is_split_off_witness :
  exists name,
    "LOOP:" = name +:+ ":"
    /\ parse_line (tok "LABEL" "LOOP:" None :: [tok "WS" " " None; tok "OPCODE" "RET" None]) 7
       = (statements <- parse_line [tok "WS" " " None; tok "OPCODE" "RET" None] 7;;
          Ok (label_statement name :: statements)).
Proof.
  apply (label_is_split_off "LOOP: RET" "LOOP:"). reflexivity.
Defined.

(** The immediate parsers on a number or hex token: the value when it is
    within the bounds, a failure otherwise. *)
Lemma parse_operand_immediate_range (lo hi v : Z) (token_type text : string) :
  In token_type ["NUMBER"; "HEX"] ->
  parse_operand_immediate lo hi (tok token_type text (Some (VInt v)))
    = Ok (if (lo <=? v) && (v <=? hi) then Some (immediate_operand v) else None).
Proof.
  intros Hty. unfold parse_operand_immediate, tok.
  cbn [Token.token_type Token.value].
  replace (str_in token_type ["NUMBER"; "HEX"]) with true
    by (cbn [In] in Hty; destruct Hty as [<-|[<-|[]]]; reflexivity).
  cbn [getattr as_int bind]. unfold Z.gtb.
  destruct (Z.ltb_spec v lo), (Z.leb_spec lo v), (Z.leb_spec v hi),
    (Z.compare_spec v hi); try lia; reflexivity.
Qed.

Lemma parse_operand_register_not_immediate (token_type text : string) (value : option PyVal) :
  In token_type ["NUMBER"; "HEX"] ->
  parse_operand_register (tok token_type text value) = Ok None.
Proof. intros [<-|[<-|[]]]; reflexivity. Qed.

(** X6. The immediate of ADD, AND, LDR, STR and TRAP is checked when the
    line is parsed: with two register operands that parse, the instruction
    parses exactly when the immediate is within -16..15 (ADD, AND),
    -32..31 (LDR, STR), and TRAP exactly when its vector is within 0..255;
    out of the range no instruction parser accepts the line. *)
Theorem immediates_are_range_checked (r1 r2 : Token.t) (o1 o2 : Operand.t)
    (token_type text : string) (v : Z) :
  parse_operand_register r1 = Ok (Some o1) ->
  parse_operand_register r2 = Ok (Some o2) ->
  In token_type ["NUMBER"; "HEX"] ->
  let imm := tok token_type text (Some (VInt v)) in
  (forall mnemonic, In mnemonic ["ADD"; "AND"] ->
     parse_instruction_statement [tok "OPCODE" mnemonic None; r1; r2; imm]
       = Ok (if (-16 <=? v) && (v <=? 15)
             then Some (instruction_statement mnemonic (Some [o1; o2; immediate_operand v]))
             else None))
  /\ (forall mnemonic, In mnemonic ["LDR"; "STR"] ->
        parse_instruction_statement [tok "OPCODE" mnemonic None; r1; r2; imm]
          = Ok (if (-32 <=? v) && (v <=? 31)
                then Some (instruction_statement mnemonic (Some [o1; o2; immediate_operand v]))
                else None))
  /\ parse_instruction_statement [tok "OPCODE" "TRAP" None; imm]
       = Ok (if (0 <=? v) && (v <=? 255)
             then Some (instruction_statement "TRAP" (Some [immediate_operand v]))
             else None).
Proof.
  intros H1 H2 Hty imm.
  pose proof (parse_operand_immediate_range (-16) 15 v token_type text Hty) as H5.
  pose proof (parse_operand_immediate_range (-32) 31 v token_type text Hty) as H6.
  pose proof (parse_operand_immediate_range 0 255 v token_type text Hty) as H8.
  pose proof (parse_operand_register_not_immediate token_type text (Some (VInt v)) Hty) as Hr.
  fold imm in H5, H6, H8, Hr.
  clearbody imm.
  split; [|split].
  - intros mnemonic Hin. cbn [In] in Hin. destruct Hin as [<-|[<-|[]]].
    all: unfold parse_instruction_statement, ins_parsers, tok;
      cbn -[parse_operand_register parse_operand_int5 parse_operand_int6 parse_operand_uint8];
      unfold parse_operands;
      cbn -[parse_operand_register parse_operand_int5 parse_operand_int6 parse_operand_uint8];
      rewrite ?H1, ?H2, ?Hr;
      cbn -[parse_operand_register parse_operand_int5 parse_operand_int6 parse_operand_uint8];
      rewrite ?H1, ?H2; unfold parse_operand_int5; rewrite ?H5;
      destruct ((-16 <=? v) && (v <=? 15)); reflexivity.
  - intros mnemonic Hin. cbn [In] in Hin. destruct Hin as [<-|[<-|[]]].
    all: unfold parse_instruction_statement, ins_parsers, tok;
      cbn -[parse_operand_register parse_operand_int5 parse_operand_int6 parse_operand_uint8];
      unfold parse_operands_DR_BaseR_offset6, parse_operands_SR_BaseR_offset6, parse_operands;
      cbn -[parse_operand_register parse_operand_int5 parse_operand_int6 parse_operand_uint8];
      rewrite ?H1, ?H2;
      cbn -[parse_operand_register parse_operand_int5 parse_operand_int6 parse_operand_uint8];
      unfold parse_operand_int6; rewrite ?H6;
      destruct ((-32 <=? v) && (v <=? 31)); reflexivity.
  - unfold parse_instruction_statement, ins_parsers, tok;
      cbn -[parse_operand_register parse_operand_int5 parse_operand_int6 parse_operand_uint8];
      unfold parse_operands;
      cbn -[parse_operand_register parse_operand_int5 parse_operand_int6 parse_operand_uint8];
      unfold parse_operand_uint8; rewrite ?H8;
      destruct ((0 <=? v) && (v <=? 255)); reflexivity.
Qed.

Lemma immediates_are_range_checked_witness :
  parse_instruction_statement
    [tok "OPCODE" "ADD" None; tok "REGISTER" "R0" None; tok "REGISTER" "R1" None;
     tok "NUMBER" "#16" (Some (VInt 16))]
  = Ok None.
Proof.
  exact (proj1 (immediates_are_range_checked
                  (tok "REGISTER" "R0" None) (tok "REGISTER" "R1" None)
                  (register_operand "R0" 0) (register_operand "R1" 1)
                  "NUMBER" "#16" 16 eq_refl eq_refl (or_introl eq_refl))
               "ADD" (or_introl eq_refl)).
Defined.

(** ** Line numbers *)

Lemma parse_statement_linenum (tokens : list Token.t) (n m : Z)
    (statements : list Statement.t) :
  parse_statement tokens n = Ok statements -> parse_statement tokens m = Ok statements.
Proof.
  unfold parse_statement.
  destruct (first_statement statement_parsers tokens) as [[st|]|e]; cbn [bind];
    (discriminate || auto).
Qed.

Lemma parse_filtered_linenum (tokens : list Token.t) (n m : Z)
    (statements : list Statement.t) :
  parse_filtered tokens n = Ok statements -> parse_filtered tokens m = Ok statements.
Proof.
  revert statements. induction tokens as [|token1 rest IH]; intros statements;
    cbn [parse_filtered]; [auto|].
  match goal with |- context [if ?b then _ else _] => destruct b end;
    [|apply parse_statement_linenum].
  destruct (parse_statement [token1] n) as [head|e] eqn:Eh; cbn [bind]; [|discriminate].
  rewrite (parse_statement_linenum _ n m _ Eh). cbn [bind].
  destruct (parse_filtered rest n) as [tail|e] eqn:Et; cbn [bind]; [|discriminate].
  rewrite (IH tail eq_refl). cbn [bind]. auto.
Qed.

Lemma parse_line_linenum (tokens : list Token.t) (n m : Z) (statements : list Statement.t) :
  parse_line tokens n = Ok statements -> parse_line tokens m = Ok statements.
Proof. apply parse_filtered_linenum. Qed.

Lemma parse_from_app (pre rest : list (list Token.t)) (n : Z) :
  Forall parses pre ->
  exists statements,
    parse_from (pre ++ rest) n
      = (tail <- parse_from rest (n + Z.of_nat (length pre));; Ok (statements ++ tail)).
Proof.
  intros Hpre. revert n. induction Hpre as [|tokens pre [sts Hsts] _ IH]; intros n.
  - exists []. cbn [app length parse_from]. rewrite Z.add_0_r.
    destruct (parse_from rest n); reflexivity.
  - destruct (IH (n + 1)) as [statements Hs]. exists (sts ++ statements).
    cbn [app parse_from]. rewrite (parse_line_linenum _ 0 n _ Hsts). cbn [bind].
    rewrite Hs. cbn [length]. rewrite Nat2Z.inj_succ.
    replace (n + 1 + Z.of_nat (length pre)) with (n + Z.succ (Z.of_nat (length pre))) by lia.
    destruct (parse_from rest (n + Z.succ (Z.of_nat (length pre)))); cbn [bind];
      [rewrite app_assoc|]; reflexivity.
Qed.

(** X7. The parser stops at the first line that fails and reports it under
    its own number, counted from 1: when the lines before it parse, the
    error of [parse] is the error of that line parsed as line
    [1 + number of lines before it]; the lines after it are not read. *)
Theorem parse_reports_first_failing_line (pre post : list (list Token.t))
    (bad : list Token.t) (e : PyError) :
  Forall parses pre ->
  parse_line bad (1 + Z.of_nat (length pre)) = Raise e ->
  parse (pre ++ bad :: post) = Raise e.
Proof.
  intros Hpre Hbad. unfold parse.
  destruct (parse_from_app pre (bad :: post) 1 Hpre) as [statements ->].
  cbn [parse_from]. rewrite Hbad. reflexivity.
Qed.

Lemma parse_reports_first_failing_line_witness :
  parse ([[tok "DIRECTIVE" ".ORIG" None; tok "HEX" "x3000" (Some (VInt 12288))]; []]
           ++ [tok "OPCODE" "JMP" None; tok "IDENTIFIER" "R7" None]
           :: [[tok "DIRECTIVE" ".END" None]])
  = Raise (Exception "Line 3: cannot parse 'JMP R7'").
Proof.
  apply parse_reports_first_failing_line.
  - repeat constructor; eexists; reflexivity.
  - reflexivity.
Defined.

(** ** BR and its suffix *)

Lemma drop_chars_short (n : nat) (s : string) :
  (String.length s <= n)%nat -> drop_chars n s = EmptyString.
Proof.
  revert s. induction n as [|n IH]; intros s H.
  - destruct s; [reflexivity | cbn in H; lia].
  - destruct s; [reflexivity|]. cbn [drop_chars]. apply IH. cbn in H. lia.
Qed.

(** X8. BR is parsed whatever the case of its letters: a token whose first
    two letters are B and R in either case, with one identifier operand,
    parses exactly when its lower-cased suffix is one of the eight accepted
    ones, and the statement carries BR in capitals with the suffix in lower
    case. *)
Theorem br_suffix_is_normalised (op label : string) :
  take_chars 2 (upper op) = "BR" ->
  parse_BR_ins [tok "OPCODE" op None; tok "IDENTIFIER" label None]
    = Ok (if str_in (drop_chars 2 (lower op)) br_suffixes
          then Some (br_statement (drop_chars 2 (lower op)) label)
          else None).
Proof.
  intros Hbr. unfold parse_BR_ins, tok. cbn [first_token bind Token.text].
  rewrite Hbr. cbn [String.eqb Ascii.eqb Bool.eqb negb].
  change ["" ; "n"; "z"; "p"; "np"; "nz"; "zp"; "nzp"] with br_suffixes.
  destruct (str_in (drop_chars 2 (lower op)) br_suffixes); cbn [negb]; [|reflexivity].
  assert (Hname : (if 2 <? len op then "BR" +:+ drop_chars 2 (lower op) else "BR")
                  = "BR" +:+ drop_chars 2 (lower op)).
  { destruct (Z.ltb_spec 2 (len op)) as [H|H]; [reflexivity|].
    rewrite drop_chars_short; [reflexivity|].
    unfold lower. rewrite str_map_length. unfold len in H. lia. }
  rewrite Hname. reflexivity.
Qed.

Lemma br_suffix_is_normalised_witness :
  parse_BR_ins [tok "OPCODE" "brNZ" None; tok "IDENTIFIER" "LOOP" None]
    = Ok (if str_in (drop_chars 2 (lower "brNZ")) br_suffixes
          then Some (br_statement (drop_chars 2 (lower "brNZ")) "LOOP")
          else None).
Proof. apply br_suffix_is_normalised. reflexivity. Defined.

(** X9. The word of a BR carries its suffix in bits 11 to 9: n is bit 11,
    z bit 10, p bit 9, each set exactly when its letter is in the suffix,
    and all three set for the empty suffix; the 9-bit offset fills the
    rest, and the result is the error of the offset when there is one. *)
Theorem br_condition_bits (suffix label : string) (symtable : gmap string Z) (pc : Z) :
  In suffix br_suffixes ->
  assemble_statement (br_statement suffix label) symtable pc
    = (pcoffset9 <- generate_pcoffset9 label symtable pc;;
       Ok (Some [Z.lor (Z.shiftl (condition_bits suffix) 9) pcoffset9])).
Proof.
  intros Hin. cbn [In br_suffixes] in Hin.
  repeat (destruct Hin as [<- | Hin]); try contradiction.
  all: unfold assemble_statement, br_statement, instruction_statement, generate_BR;
    eval_names; cbn -[generate_pcoffset9];
    destruct (generate_pcoffset9 label symtable pc) as [off|e]; cbn [bind]; reflexivity.
Qed.

Lemma br_condition_bits_witness :
  assemble_statement (br_statement "zp" "LOOP") {["LOOP" := 12288]} 12291
    = (pcoffset9 <- generate_pcoffset9 "LOOP" {["LOOP" := 12288]} 12291;;
       Ok (Some [Z.lor (Z.shiftl (condition_bits "zp") 9) pcoffset9])).
Proof. apply br_condition_bits. cbn. tauto. Defined.

(** * Further properties of pass 1 *)

Lemma symbol_loop_app (pre post : list Statement.t) (state : gmap string Z * Z) :
  symbol_loop (pre ++ post) state
    = (state' <- symbol_loop pre state;; symbol_loop post state').
Proof.
  revert state. induction pre as [|statement pre IH]; intros state; [reflexivity|].
  cbn [app symbol_loop].
  destruct (symbol_step statement state); cbn [bind]; [apply IH | reflexivity].
Qed.

(** One step of pass 1, when it succeeds: a declaration of a new label
    enters the table at the location counter and leaves the counter; any
    other statement leaves the table and advances the counter by its
    size. *)
Lemma symbol_step_ok (statement : Statement.t) (symbol_table symbol_table' : gmap string Z)
    (lc lc' : Z) :
  symbol_step statement (symbol_table, lc) = Ok (symbol_table', lc') ->
  lc' = lc + pass1_size statement
  /\ match declared_label statement with
     | Some name => symbol_table !! name = None /\ symbol_table' = <[name := lc]> symbol_table
     | None => symbol_table' = symbol_table
     end.
Proof.
  unfold symbol_step, declared_label, pass1_size.
  destruct (is_directive "LABEL" statement) as [[]|e] eqn:Ed; cbn [bind]; [| |discriminate].
  - assert (Hsize : size_of_ins statement = Ok None).
    { unfold is_directive in Ed. unfold size_of_ins.
      destruct (String.eqb_spec (Statement.statement_type statement) "DIRECTIVE") as [E|E];
        [|discriminate].
      rewrite E. cbn [String.eqb Ascii.eqb Bool.eqb].
      destruct (Statement.directive_type statement) as [d|]; cbn [getattr bind] in *;
        [|discriminate].
      injection Ed as Ed. apply String.eqb_eq in Ed. subst d. reflexivity. }
    rewrite Hsize.
    destruct (Statement.label_name statement) as [name|]; cbn [getattr bind]; [|discriminate].
    destruct (symbol_table !! name) eqn:El; [discriminate|].
    intros [= <- <-]. split; [lia | auto].
  - destruct (size_of_ins statement) as [[n|]|e]; cbn [bind]; [| |discriminate];
      intros [= <- <-]; split; (lia || reflexivity).
Qed.

Lemma symbol_loop_ok (statements : list Statement.t) (symbol_table symbol_table' : gmap string Z)
    (lc lc' : Z) :
  symbol_loop statements (symbol_table, lc) = Ok (symbol_table', lc') ->
  lc' = lc + pass1_total statements
  /\ NoDup (declared_labels statements)
  /\ (forall name, In name (declared_labels statements) -> symbol_table !! name = None)
  /\ (forall name, is_Some (symbol_table' !! name)
                   <-> is_Some (symbol_table !! name) \/ In name (declared_labels statements))
  /\ (forall name address, symbol_table !! name = Some address ->
                           symbol_table' !! name = Some address).
Proof.
  revert symbol_table lc.
  induction statements as [|statement rest IH]; intros symbol_table lc; cbn [symbol_loop].
  - intros [= <- <-]. cbn [pass1_total declared_labels In].
    split; [lia|]. split; [constructor|]. split; [contradiction|]. split; [tauto | auto].
  - destruct (symbol_step statement (symbol_table, lc)) as [[table1 lc1]|e] eqn:Es;
      cbn [bind]; [|discriminate].
    intros Hloop. apply symbol_step_ok in Es as [Hlc Ht].
    apply IH in Hloop as (Hlc' & Hnodup & Hfresh & Hkeys & Hkeep).
    cbn [pass1_total declared_labels].
    split; [lia|].
    destruct (declared_label statement) as [name|].
    + destruct Ht as [Hnone ->].
      split; [|split; [|split]].
      * constructor; [|exact Hnodup]. intros Hin. apply list_elem_of_In, Hfresh in Hin.
        rewrite lookup_insert_eq in Hin. discriminate.
      * intros k [<-|Hin]; [exact Hnone|]. apply Hfresh in Hin.
        destruct (decide (name = k)) as [->|Hne];
          [rewrite lookup_insert_eq in Hin; discriminate|].
        rewrite lookup_insert_ne in Hin by exact Hne. exact Hin.
      * intros k. rewrite Hkeys. cbn [In].
        destruct (decide (name = k)) as [->|Hne].
        -- rewrite lookup_insert_eq. split; [auto|]. intros _. left. eexists; reflexivity.
        -- rewrite lookup_insert_ne by exact Hne. tauto.
      * intros k a Hk. apply Hkeep.
        destruct (decide (name = k)) as [->|Hne]; [congruence|].
        rewrite lookup_insert_ne by exact Hne. exact Hk.
    + subst table1. auto.
Qed.

(** X10. When pass 1 succeeds, the labels declared in the statements are
    pairwise distinct and the keys of the symbol table are exactly those
    labels, wherever they are declared. *)
Theorem symbol_table_keys (statements : list Statement.t) (symbol_table : gmap string Z) :
  make_symbol_table statements = Ok symbol_table ->
  NoDup (declared_labels statements)
  /\ forall name, is_Some (symbol_table !! name) <-> In name (declared_labels statements).
Proof.
  unfold make_symbol_table.
  destruct (find_orig statements) as [[lc|]|e]; cbn [bind]; try discriminate.
  destruct (symbol_loop statements (∅, lc)) as [[table lc']|e] eqn:El; cbn [bind];
    [|discriminate].
  intros [= <-]. apply symbol_loop_ok in El as (_ & Hnodup & _ & Hkeys & _).
  split; [exact Hnodup|]. intros name. rewrite Hkeys, lookup_empty.
  split; [intros [[x Hx]|H]; [discriminate | exact H] | auto].
Qed.

Lemma symbol_table_keys_witness :
  NoDup (declared_labels program_after_end)
  /\ forall name, is_Some (({["L" := 12288]} : gmap string Z) !! name)
                  <-> In name (declared_labels program_after_end).
Proof.
  apply (symbol_table_keys program_after_end {["L" := 12288]}).
  vm_compute. reflexivity.
Defined.

(** X11. When pass 1 succeeds, the symbol table maps a declared label to
    the address of its declaration: the address of the first Origin plus
    the sizes pass 1 counts for all the statements before the
    declaration. *)
Theorem symbol_address (pre post : list Statement.t) (name : string) (origin : Z)
    (symbol_table : gmap string Z) :
  find_orig (pre ++ label_statement name :: post) = Ok (Some origin) ->
  make_symbol_table (pre ++ label_statement name :: post) = Ok symbol_table ->
  symbol_table !! name = Some (origin + pass1_total pre).
Proof.
  intros Horig. unfold make_symbol_table. rewrite Horig. cbn [bind].
  rewrite symbol_loop_app.
  destruct (symbol_loop pre (∅, origin)) as [[table1 lc1]|e] eqn:E1; cbn [bind];
    [|discriminate].
  cbn [symbol_loop].
  destruct (symbol_step (label_statement name) (table1, lc1)) as [[table2 lc2]|e] eqn:E2;
    cbn [bind]; [|discriminate].
  destruct (symbol_loop post (table2, lc2)) as [[table3 lc3]|e] eqn:E3; cbn [bind];
    [|discriminate].
  intros [= <-].
  apply symbol_loop_ok in E1 as (Hlc1 & _).
  apply symbol_step_ok in E2 as (_ & Ht).
  change (declared_label (label_statement name)) with (Some name) in Ht.
  destruct Ht as [_ ->].
  apply symbol_loop_ok in E3 as (_ & _ & _ & _ & Hkeep).
  apply Hkeep. rewrite lookup_insert_eq. congruence.
Qed.

Lemma symbol_address_witness :
  ({["L" := 12290]} : gmap string Z) !! "L"
    = Some (12288 + pass1_total [orig_statement 12288; fill_statement 5; blkw_statement 1]).
Proof.
  apply (symbol_address [orig_statement 12288; fill_statement 5; blkw_statement 1]
           [end_statement] "L" 12288 {["L" := 12290]}); vm_compute; reflexivity.
Defined.

(** * Further properties of pass 2: the instruction words *)

(** A field put under fields that sit above it adds up: the bitwise or is a
    sum. *)
Lemma lor_field (high field k w : Z) :
  0 <= k -> 0 <= w -> 0 <= field < 2 ^ w ->
  Z.land high (Z.ones (k + w)) = 0 ->
  Z.lor high (Z.shiftl field k) = high + field * 2 ^ k.
Proof.
  intros Hk Hw Hf Hh.
  assert (Hpk : 0 < 2 ^ k) by (apply Z.pow_pos_nonneg; lia).
  assert (Hs : 0 <= field * 2 ^ k < 2 ^ (k + w)).
  { rewrite Z.pow_add_r by lia. nia. }
  rewrite Z.shiftl_mul_pow2 by lia.
  rewrite <- Z.lxor_lor, <- Z.add_nocarry_lxor; [reflexivity| |].
  all: rewrite <- (Z.mod_small (field * 2 ^ k) (2 ^ (k + w))) by exact Hs;
    rewrite <- Z.land_ones by lia;
    rewrite (Z.land_comm (field * 2 ^ k)), Z.land_assoc, Hh; apply Z.land_0_l.
Qed.

Lemma generate_imm5_spec (value : Z) :
  -16 <= value <= 15 -> generate_imm5 value = value mod 2 ^ 5 /\ 0 <= generate_imm5 value < 32.
Proof.
  intros H. unfold generate_imm5.
  assert (Hm : 0 <= value mod 2 ^ 5 < 32) by (apply Z.mod_pos_bound; lia).
  destruct (Z.ltb_spec value 0).
  - change 15 with (Z.ones 4).
    rewrite (sign_bit_over_low_bits 4 value) by lia. change (4 + 1) with 5. auto.
  - rewrite Z.mod_small by lia. lia.
Qed.

Lemma generate_offset6_spec (value : Z) :
  -32 <= value <= 31 ->
  generate_offset6 value = value mod 2 ^ 6 /\ 0 <= generate_offset6 value < 64.
Proof.
  intros H. unfold generate_offset6.
  assert (Hm : 0 <= value mod 2 ^ 6 < 64) by (apply Z.mod_pos_bound; lia).
  destruct (Z.ltb_spec value 0).
  - change 31 with (Z.ones 5).
    rewrite (sign_bit_over_low_bits 5 value) by lia. change (5 + 1) with 6. auto.
  - rewrite Z.mod_small by lia. lia.
Qed.

(** The register form [opcode DR SR1 0 00 SR2] as a sum. *)
Lemma word_reg3 (opcode dr sr1 sr2 : Z) :
  0 <= dr <= 7 -> 0 <= sr1 <= 7 -> 0 <= sr2 <= 7 ->
  Z.lor (Z.lor (Z.lor (Z.shiftl opcode 12) (Z.shiftl dr 9)) (Z.shiftl sr1 6)) (Z.shiftl sr2 0)
    = opcode * 4096 + dr * 512 + sr1 * 64 + sr2.
Proof.
  intros Hd H1 H2.
  rewrite (lor_field _ sr2 0 3) by (lia || auto 10 with fields).
  rewrite (lor_field _ sr1 6 3) by (lia || auto 10 with fields).
  rewrite (lor_field _ dr 9 3) by (lia || auto 10 with fields).
  rewrite Z.shiftl_mul_pow2 by lia. lia.
Qed.

(** The forms [opcode DR SR1 1 imm5] and [opcode DR BaseR offset6]. *)
Lemma word_reg2_imm5 (opcode dr sr1 imm5 : Z) :
  0 <= dr <= 7 -> 0 <= sr1 <= 7 -> 0 <= imm5 < 32 ->
  Z.lor (Z.lor (Z.lor (Z.lor (Z.shiftl opcode 12) (Z.shiftl dr 9)) (Z.shiftl sr1 6))
               (Z.shiftl 1 5)) (Z.shiftl imm5 0)
    = opcode * 4096 + dr * 512 + sr1 * 64 + 32 + imm5.
Proof.
  intros Hd H1 Hi.
  rewrite (lor_field _ imm5 0 5) by (lia || auto 10 with fields).
  rewrite (lor_field _ 1 5 1) by (lia || auto 10 with fields).
  rewrite (lor_field _ sr1 6 3) by (lia || auto 10 with fields).
  rewrite (lor_field _ dr 9 3) by (lia || auto 10 with fields).
  rewrite Z.shiftl_mul_pow2 by lia. lia.
Qed.

Lemma word_reg2_offset6 (opcode dr baser offset6 : Z) :
  0 <= dr <= 7 -> 0 <= baser <= 7 -> 0 <= offset6 < 64 ->
  Z.lor (Z.lor (Z.lor (Z.shiftl opcode 12) (Z.shiftl dr 9)) (Z.shiftl baser 6))
        (Z.shiftl offset6 0)
    = opcode * 4096 + dr * 512 + baser * 64 + offset6.
Proof.
  intros Hd H1 Hi.
  rewrite (lor_field _ offset6 0 6) by (lia || auto 10 with fields).
  rewrite (lor_field _ baser 6 3) by (lia || auto 10 with fields).
  rewrite (lor_field _ dr 9 3) by (lia || auto 10 with fields).
  rewrite Z.shiftl_mul_pow2 by lia. lia.
Qed.

(** X12. ADD and AND with three registers: for registers 0 to 7 the word
    is [opcode DR SR1 0 00 SR2], that is
    opcode * 4096 + DR * 512 + SR1 * 64 + SR2, a 16-bit word. *)
Theorem add_and_register_word (mnemonic n1 n2 n3 : string) (dr sr1 sr2 : Z)
    (symtable : gmap string Z) (pc : Z) :
  In mnemonic ["ADD"; "AND"] ->
  0 <= dr <= 7 -> 0 <= sr1 <= 7 -> 0 <= sr2 <= 7 ->
  let word := add_and_opcode mnemonic * 4096 + dr * 512 + sr1 * 64 + sr2 in
  assemble_statement (reg3_statement mnemonic n1 n2 n3 dr sr1 sr2) symtable pc
    = Ok (Some [word])
  /\ 0 <= word < 65536.
Proof.
  intros Hin Hd H1 H2 word. subst word. cbn [In] in Hin.
  destruct Hin as [<-|[<-|[]]].
  all: split; [|unfold add_and_opcode; cbn [String.eqb Ascii.eqb Bool.eqb]; lia].
  all: unfold assemble_statement, reg3_statement, instruction_statement, generate_ADD,
         generate_AND, generate_bmins_DR_SR1_SR2; cbn;
       rewrite word_reg3 by assumption; reflexivity.
Qed.

Lemma add_and_register_word_witness :
  assemble_statement (reg3_statement "ADD" "R1" "R2" "R3" 1 2 3) ∅ 12289 = Ok (Some [4739])
  /\ 0 <= 4739 < 65536.
Proof.
  apply (add_and_register_word "ADD" "R1" "R2" "R3" 1 2 3 ∅ 12289); (cbn; tauto) || lia.
Defined.

(** X13. ADD and AND with an immediate: for registers 0 to 7 and an
    immediate within -16..15 the word is [opcode DR SR1 1 imm5] with the
    immediate in two's complement on 5 bits, that is
    opcode * 4096 + DR * 512 + SR1 * 64 + 32 + (imm mod 32), a 16-bit
    word. *)
Theorem add_and_immediate_word (mnemonic n1 n2 : string) (dr sr1 imm : Z)
    (symtable : gmap string Z) (pc : Z) :
  In mnemonic ["ADD"; "AND"] ->
  0 <= dr <= 7 -> 0 <= sr1 <= 7 -> -16 <= imm <= 15 ->
  let word := add_and_opcode mnemonic * 4096 + dr * 512 + sr1 * 64 + 32 + imm mod 2 ^ 5 in
  assemble_statement (reg2_imm_statement mnemonic n1 n2 dr sr1 imm) symtable pc
    = Ok (Some [word])
  /\ 0 <= word < 65536.
Proof.
  intros Hin Hd H1 Hi word. subst word. cbn [In] in Hin.
  destruct (generate_imm5_spec imm Hi) as [Himm Hb]. rewrite <- Himm.
  destruct Hin as [<-|[<-|[]]].
  all: split; [|unfold add_and_opcode; cbn [String.eqb Ascii.eqb Bool.eqb]; lia].
  all: unfold assemble_statement, reg2_imm_statement, instruction_statement, generate_ADD,
         generate_AND, generate_bmins_DR_SR1_imm5; cbn -[generate_imm5];
       rewrite word_reg2_imm5 by assumption; reflexivity.
Qed.

Lemma add_and_immediate_word_witness :
  assemble_statement (reg2_imm_statement "ADD" "R1" "R1" 1 1 (-1)) ∅ 12289
    = Ok (Some [add_and_opcode "ADD" * 4096 + 1 * 512 + 1 * 64 + 32 + (-1) mod 2 ^ 5])
  /\ 0 <= add_and_opcode "ADD" * 4096 + 1 * 512 + 1 * 64 + 32 + (-1) mod 2 ^ 5 < 65536.
Proof.
  apply (add_and_immediate_word "ADD" "R1" "R1" 1 1 (-1) ∅ 12289); (cbn; tauto) || lia.
Defined.

(** X14. LDR and STR: for registers 0 to 7 and an offset within -32..31
    the word is [opcode DR BaseR offset6] with the offset in two's
    complement on 6 bits, that is
    opcode * 4096 + DR * 512 + BaseR * 64 + (offset mod 64), a 16-bit
    word. *)
Theorem ldr_str_word (mnemonic n1 n2 : string) (dr baser offset : Z)
    (symtable : gmap string Z) (pc : Z) :
  In mnemonic ["LDR"; "STR"] ->
  0 <= dr <= 7 -> 0 <= baser <= 7 -> -32 <= offset <= 31 ->
  let word := ldr_str_opcode mnemonic * 4096 + dr * 512 + baser * 64 + offset mod 2 ^ 6 in
  assemble_statement (reg2_imm_statement mnemonic n1 n2 dr baser offset) symtable pc
    = Ok (Some [word])
  /\ 0 <= word < 65536.
Proof.
  intros Hin Hd H1 Hi word. subst word. cbn [In] in Hin.
  destruct (generate_offset6_spec offset Hi) as [Hoff Hb]. rewrite <- Hoff.
  destruct Hin as [<-|[<-|[]]].
  all: split; [|unfold ldr_str_opcode; cbn [String.eqb Ascii.eqb Bool.eqb]; lia].
  all: unfold assemble_statement, reg2_imm_statement, instruction_statement, generate_LDR,
         generate_STR, generate_bmins_SR_BaseR_offset6, generate_bmins_DR_BaseR_offset6;
       cbn -[generate_offset6];
       rewrite word_reg2_offset6 by assumption; reflexivity.
Qed.

Lemma ldr_str_word_witness :
  assemble_statement (reg2_imm_statement "STR" "R0" "R6" 0 6 (-32)) ∅ 12289
    = Ok (Some [ldr_str_opcode "STR" * 4096 + 0 * 512 + 6 * 64 + (-32) mod 2 ^ 6])
  /\ 0 <= ldr_str_opcode "STR" * 4096 + 0 * 512 + 6 * 64 + (-32) mod 2 ^ 6 < 65536.
Proof.
  apply (ldr_str_word "STR" "R0" "R6" 0 6 (-32) ∅ 12289); (cbn; tauto) || lia.
Defined.

(** X15. NOT: the low six bits of the word are all ones whatever the
    operands, and for registers 0 to 7 the word is [1001 DR SR 111111],
    that is 9 * 4096 + DR * 512 + SR * 64 + 63. *)
Theorem not_word (n1 n2 : string) (dr sr : Z) (symtable : gmap string Z) (pc : Z) :
  (exists word,
     assemble_statement (not_statement n1 n2 dr sr) symtable pc = Ok (Some [word])
     /\ Z.land word 63 = 63)
  /\ (0 <= dr <= 7 -> 0 <= sr <= 7 ->
      assemble_statement (not_statement n1 n2 dr sr) symtable pc
        = Ok (Some [9 * 4096 + dr * 512 + sr * 64 + 63])).
Proof.
  split.
  - eexists. split; [reflexivity|].
    change 63 with (Z.ones 6) at 2.
    apply (low_field _ 63 6); [lia | auto 10 with fields | lia].
  - intros Hd Hs.
    unfold assemble_statement, not_statement, instruction_statement, generate_NOT. cbn.
    rewrite word_reg2_offset6 by lia. reflexivity.
Qed.

Lemma not_word_witness :
  assemble_statement (not_statement "R4" "R5" 4 5) ∅ 12289
    = Ok (Some [9 * 4096 + 4 * 512 + 5 * 64 + 63]).
Proof. apply (proj2 (not_word "R4" "R5" 4 5 ∅ 12289)); lia. Defined.

(** X16. JMP and JSRR with a base register 0 to 7: the words are
    [1100 000 BaseR 000000] and [0100 0 00 BaseR 000000], that is
    12 * 4096 + BaseR * 64 and 4 * 4096 + BaseR * 64; and TRAP with a
    vector within 0..255 is [1111 0000 trapvect8], 15 * 4096 + vector. *)
Theorem jmp_jsrr_trap_words (name : string) (baser trapvect8 : Z)
    (symtable : gmap string Z) (pc : Z) :
  0 <= baser <= 7 -> 0 <= trapvect8 <= 255 ->
  assemble_statement (jmp_statement name baser) symtable pc
    = Ok (Some [12 * 4096 + baser * 64])
  /\ assemble_statement (jsrr_statement name baser) symtable pc
    = Ok (Some [4 * 4096 + baser * 64])
  /\ assemble_statement (trap_statement trapvect8) symtable pc
    = Ok (Some [15 * 4096 + trapvect8]).
Proof.
  intros Hb Ht.
  assert (Hreg : forall opcode, Z.lor (Z.shiftl opcode 12) (Z.shiftl baser 6)
                                = opcode * 4096 + baser * 64).
  { intros opcode. rewrite (lor_field _ baser 6 3) by (lia || auto 10 with fields).
    rewrite Z.shiftl_mul_pow2 by lia. lia. }
  assert (Htrap : Z.lor (Z.shiftl 15 12) (Z.shiftl trapvect8 0) = 15 * 4096 + trapvect8).
  { rewrite (lor_field _ trapvect8 0 8) by (lia || auto 10 with fields).
    rewrite Z.shiftl_mul_pow2 by lia. lia. }
  split; [|split].
  - unfold assemble_statement, jmp_statement, instruction_statement, generate_JMP. cbn.
    rewrite Hreg. reflexivity.
  - unfold assemble_statement, jsrr_statement, instruction_statement, generate_JSRR. cbn.
    rewrite Hreg. reflexivity.
  - unfold assemble_statement, trap_statement, instruction_statement, generate_TRAP. cbn.
    rewrite Htrap. reflexivity.
Qed.

Lemma jmp_jsrr_trap_words_witness :
  assemble_statement (jmp_statement "R2" 2) ∅ 12289 = Ok (Some [12 * 4096 + 2 * 64])
  /\ assemble_statement (jsrr_statement "R2" 2) ∅ 12289 = Ok (Some [4 * 4096 + 2 * 64])
  /\ assemble_statement (trap_statement 37) ∅ 12289 = Ok (Some [15 * 4096 + 37]).
Proof. apply (jmp_jsrr_trap_words "R2" 2 37 ∅ 12289); lia. Defined.

(** ** PC-relative words and undefined labels *)

Lemma pcoffset9_in_range (label : string) (symtable : gmap string Z) (pc address : Z) :
  symtable !! label = Some address -> -256 <= address - pc <= 255 ->
  generate_pcoffset9 label symtable pc = Ok ((address - pc) mod 2 ^ 9).
Proof.
  intros Hl Hr. rewrite (generate_pcoffset9_spec _ _ _ _ Hl).
  replace ((- 2 ^ 8 <=? address - pc) && (address - pc <? 2 ^ 8)) with true; [reflexivity|].
  symmetry. apply andb_true_intro. split; [apply Z.leb_le | apply Z.ltb_lt]; lia.
Qed.

Lemma pcoffset11_in_range (label : string) (symtable : gmap string Z) (pc address : Z) :
  symtable !! label = Some address -> -1024 <= address - pc <= 1023 ->
  generate_pcoffset11 label symtable pc = Ok ((address - pc) mod 2 ^ 11).
Proof.
  intros Hl Hr. rewrite (generate_pcoffset11_spec _ _ _ _ Hl).
  replace ((- 2 ^ 10 <=? address - pc) && (address - pc <? 2 ^ 10)) with true; [reflexivity|].
  symmetry. apply andb_true_intro. split; [apply Z.leb_le | apply Z.ltb_lt]; lia.
Qed.

(** X17. BR, LD, LDI, LEA, ST and STI whose label is defined within
    -256..255 of the PC: the word is the opcode (or, for BR, the condition
    bits) over the offset in two's complement on 9 bits, that is
    condition bits * 512 + (offset mod 512) for BR and
    opcode * 4096 + register * 512 + (offset mod 512) for the others, a
    16-bit word. *)
Theorem pcoffset9_words (label name : string) (reg pc address : Z)
    (symtable : gmap string Z) :
  symtable !! label = Some address ->
  -256 <= address - pc <= 255 ->
  0 <= reg <= 7 ->
  (forall suffix, In suffix br_suffixes ->
     assemble_statement (br_statement suffix label) symtable pc
       = Ok (Some [condition_bits suffix * 512 + (address - pc) mod 2 ^ 9]))
  /\ (forall mnemonic, In mnemonic reg_label_mnemonics ->
        assemble_statement (reg_label_statement mnemonic name reg label) symtable pc
          = Ok (Some [reg_label_opcode mnemonic * 4096 + reg * 512 + (address - pc) mod 2 ^ 9])
        /\ 0 <= reg_label_opcode mnemonic * 4096 + reg * 512 + (address - pc) mod 2 ^ 9
           < 65536).
Proof.
  intros Hl Hr Hreg.
  pose proof (pcoffset9_in_range label symtable pc address Hl Hr) as H9.
  assert (Hm : 0 <= (address - pc) mod 2 ^ 9 < 2 ^ 9) by (apply Z.mod_pos_bound; lia).
  split.
  - intros suffix Hin. cbn [In br_suffixes] in Hin.
    repeat (destruct Hin as [<- | Hin]); try contradiction.
    all: unfold assemble_statement, br_statement, instruction_statement, generate_BR;
      eval_names; cbn -[generate_pcoffset9 Z.pow]; rewrite H9; cbn [bind];
      do 3 f_equal;
      rewrite (lor_field _ ((address - pc) mod 2 ^ 9) 0 9) by (lia || auto 10 with fields);
      vm_compute (condition_bits _);
      match goal with
      | |- ?high + _ = _ => let v := eval vm_compute in high in change high with v
      end; lia.
  - intros mnemonic Hin. cbn [In reg_label_mnemonics] in Hin.
    repeat (destruct Hin as [<- | Hin]); try contradiction.
    all: split; [|unfold reg_label_opcode; cbn [String.eqb Ascii.eqb Bool.eqb]; lia].
    all: unfold assemble_statement, reg_label_statement, instruction_statement,
           generate_LD, generate_LDI, generate_LEA, generate_ST, generate_STI,
           generate_bmins_SR_PCoffset9, generate_bmins_DR_PCoffset9;
         cbn -[generate_pcoffset9 Z.pow]; rewrite H9; cbn [bind];
         do 3 f_equal;
         rewrite (lor_field _ ((address - pc) mod 2 ^ 9) 0 9) by (lia || auto 10 with fields);
         rewrite (lor_field _ reg 9 3) by (lia || auto 10 with fields);
         rewrite Z.shiftl_mul_pow2 by lia;
         unfold reg_label_opcode; cbn [String.eqb Ascii.eqb Bool.eqb]; lia.
Qed.

Lemma pcoffset9_words_witness :
  assemble_statement (br_statement "p" "LOOP") {["LOOP" := 12288]} 12291
    = Ok (Some [condition_bits "p" * 512 + (12288 - 12291) mod 2 ^ 9]).
Proof.
  assert (Hl : ({["LOOP" := 12288]} : gmap string Z) !! "LOOP" = Some 12288)
    by reflexivity.
  apply (proj1 (pcoffset9_words "LOOP" "R0" 0 12291 12288 {["LOOP" := 12288]}
                  Hl ltac:(lia) ltac:(lia))).
  cbn. tauto.
Defined.

(** X18. JSR whose label is defined within -1024..1023 of the PC: the
    word is [0100 1 PCoffset11], that is 4 * 4096 + 2048 + (offset mod
    2048). *)
Theorem jsr_word (label : string) (pc address : Z) (symtable : gmap string Z) :
  symtable !! label = Some address ->
  -1024 <= address - pc <= 1023 ->
  assemble_statement (jsr_statement label) symtable pc
    = Ok (Some [4 * 4096 + 2048 + (address - pc) mod 2 ^ 11]).
Proof.
  intros Hl Hr.
  pose proof (pcoffset11_in_range label symtable pc address Hl Hr) as H11.
  assert (Hm : 0 <= (address - pc) mod 2 ^ 11 < 2 ^ 11) by (apply Z.mod_pos_bound; lia).
  unfold assemble_statement, jsr_statement, instruction_statement, generate_JSR.
  cbn -[generate_pcoffset11 Z.pow]. rewrite H11. cbn [bind]. do 3 f_equal.
  rewrite (lor_field _ ((address - pc) mod 2 ^ 11) 0 11) by (lia || auto 10 with fields).
  rewrite (lor_field _ 1 11 1) by (lia || auto 10 with fields).
  rewrite Z.shiftl_mul_pow2 by lia. lia.
Qed.

Lemma jsr_word_witness :
  assemble_statement (jsr_statement "SUB") {["SUB" := 12800]} 12289
    = Ok (Some [4 * 4096 + 2048 + (12800 - 12289) mod 2 ^ 11]).
Proof. apply jsr_word; [reflexivity | lia]. Defined.

(** X19. A PC-relative instruction whose label is not in the symbol table
    stops pass 2 with the error that names the label. *)
Theorem undefined_label_is_reported (label : string) (statement : Statement.t) (width : Z)
    (symtable : gmap string Z) (machine_instructions : list Z) (lc : Z) :
  pc_relative label statement width ->
  symtable !! label = None ->
  assemble_step symtable statement (machine_instructions, lc)
    = Raise (Exception ("Undefined label '" +:+ label +:+ "'")).
Proof.
  intros Hrel Hl.
  assert (H9 : forall pc, generate_pcoffset9 label symtable pc
                          = Raise (Exception ("Undefined label '" +:+ label +:+ "'")))
    by (intros pc; unfold generate_pcoffset9, lookup_label; rewrite Hl; reflexivity).
  assert (H11 : forall pc, generate_pcoffset11 label symtable pc
                           = Raise (Exception ("Undefined label '" +:+ label +:+ "'")))
    by (intros pc; unfold generate_pcoffset11, lookup_label; rewrite Hl; reflexivity).
  destruct Hrel as [suffix Hin | mnemonic name reg Hin | ].
  - cbn in Hin. repeat (destruct Hin as [<- | Hin]); try contradiction.
    all: unfold assemble_step, assemble_statement, br_statement, instruction_statement,
           generate_BR; eval_names;
         cbn -[generate_pcoffset9]; rewrite H9; reflexivity.
  - cbn in Hin. repeat (destruct Hin as [<- | Hin]); try contradiction.
    all: unfold assemble_step, assemble_statement, reg_label_statement, instruction_statement,
           generate_LD, generate_LDI, generate_LEA, generate_ST, generate_STI,
           generate_bmins_SR_PCoffset9, generate_bmins_DR_PCoffset9;
         cbn -[generate_pcoffset9]; rewrite H9; reflexivity.
  - unfold assemble_step, assemble_statement, jsr_statement, instruction_statement,
      generate_JSR.
    cbn -[generate_pcoffset11]. rewrite H11. reflexivity.
Qed.

Lemma undefined_label_is_reported_witness :
  assemble_step {["LOOP" := 12288]} (jsr_statement "NOWHERE") ([12288], 12288)
    = Raise (Exception ("Undefined label '" +:+ "NOWHERE" +:+ "'")).
Proof.
  apply (undefined_label_is_reported "NOWHERE" (jsr_statement "NOWHERE") 11).
  - apply pc_relative_JSR.
  - reflexivity.
Defined.

(** ** Duplicate labels *)

Lemma find_orig_app_some (pre post : list Statement.t) (origin : Z) :
  find_orig pre = Ok (Some origin) -> find_orig (pre ++ post) = Ok (Some origin).
Proof.
  induction pre as [|statement pre IH]; cbn [app find_orig]; [discriminate|].
  destruct (is_directive "ORIG" statement) as [[]|e]; cbn [bind]; auto.
Qed.

(** X20. A label declared twice stops pass 1 at the second declaration:
    when pass 1 succeeds on the statements up to there and they already
    declare the label, the error names the label as already in the symbol
    table, whatever follows. *)
Theorem duplicate_label_is_reported (pre post : list Statement.t) (name : string)
    (symbol_table : gmap string Z) :
  make_symbol_table pre = Ok symbol_table ->
  In name (declared_labels pre) ->
  make_symbol_table (pre ++ label_statement name :: post)
    = Raise (Exception ("Label '" +:+ name +:+ "' already in symbol table.")).
Proof.
  unfold make_symbol_table.
  destruct (find_orig pre) as [[origin|]|e] eqn:Eo; cbn [bind]; try discriminate.
  rewrite (find_orig_app_some pre _ origin Eo). cbn [bind].
  rewrite symbol_loop_app.
  destruct (symbol_loop pre (∅, origin)) as [[table lc]|e] eqn:El; cbn [bind];
    [|discriminate].
  intros _ Hin.
  apply symbol_loop_ok in El as (_ & _ & _ & Hkeys & _).
  assert (Hsome : is_Some (table !! name)) by (apply Hkeys; auto).
  destruct Hsome as [address Ha].
  cbn [symbol_loop]. unfold symbol_step.
  change (is_directive "LABEL" (label_statement name)) with (@Ok bool true).
  cbn [bind getattr label_statement Statement.label_name]. rewrite Ha. reflexivity.
Qed.

Lemma duplicate_label_is_reported_witness :
  make_symbol_table
    ([orig_statement 12288; label_statement "A"; fill_statement 1]
       ++ label_statement "A" :: [end_statement])
  = Raise (Exception ("Label '" +:+ "A" +:+ "' already in symbol table.")).
Proof.
  apply (duplicate_label_is_reported _ _ "A" {["A" := 12288]}).
  - vm_compute. reflexivity.
  - cbn. tauto.
Defined.

(** * Further properties of pass 2: the output as a whole *)

Lemma assemble_loop_grows (symtable : gmap string Z) (statements : list Statement.t)
    (machine_instructions machine_instructions' : list Z) (lc lc' : Z) :
  assemble_loop symtable statements (machine_instructions, lc)
    = Ok (machine_instructions', lc') ->
  exists emitted,
    machine_instructions' = machine_instructions ++ emitted
    /\ lc' = lc + Z.of_nat (length emitted).
Proof.
  revert machine_instructions lc.
  induction statements as [|statement rest IH]; intros mi lc; cbn [assemble_loop].
  - intros [= <- <-]. exists []. rewrite app_nil_r. split; [reflexivity | cbn; lia].
  - unfold assemble_step at 1.
    destruct (assemble_statement statement symtable (lc + 1)) as [[bmins|]|e];
      cbn [bind]; [| |discriminate].
    + intros H. apply IH in H as (emitted & -> & ->).
      exists (bmins ++ emitted). rewrite app_assoc, length_app. split; [reflexivity | lia].
    + apply IH.
Qed.

(** X21. The layout of the output of pass 2: the first word is the address
    of the first Origin, and the location counter always is that address
    plus the number of words emitted so far, so that the word at index
    [i + 1] of the output belongs at address origin + i. *)
Theorem output_layout (statements : list Statement.t) (symtable : gmap string Z)
    (words : list Z) :
  assemble statements symtable = Ok words ->
  exists origin emitted,
    find_orig statements = Ok (Some origin)
    /\ words = origin :: emitted
    /\ assemble_loop symtable statements ([origin], origin)
       = Ok (words, origin + Z.of_nat (length emitted)).
Proof.
  unfold assemble.
  destruct (find_orig statements) as [[origin|]|e]; cbn [bind]; try discriminate.
  destruct (assemble_loop symtable statements ([origin], origin)) as [[mi lc]|e] eqn:El;
    cbn [bind]; [|discriminate].
  intros [= <-]. cbn [fst].
  destruct (assemble_loop_grows _ _ _ _ _ _ El) as (emitted & -> & ->).
  exists origin, emitted. auto.
Qed.

Lemma output_layout_witness :
  exists origin emitted,
    find_orig program_after_end = Ok (Some origin)
    /\ [12288; 7] = origin :: emitted
    /\ assemble_loop {["L" := 12288]} program_after_end ([origin], origin)
       = Ok ([12288; 7], origin + Z.of_nat (length emitted)).
Proof.
  apply (output_layout program_after_end {["L" := 12288]} [12288; 7]).
  vm_compute. reflexivity.
Defined.

(** X22. Pass 2 without an Origin: where pass 1 raises its own error,
    [assemble] fails on its assertion, before it looks at any statement. *)
Theorem assemble_needs_an_origin (statements : list Statement.t) (symtable : gmap string Z) :
  Forall (fun statement => is_directive "ORIG" statement = Ok false) statements ->
  assemble statements symtable = Raise AssertionError.
Proof.
  intros H. apply find_orig_none in H. unfold assemble. rewrite H. reflexivity.
Qed.

Lemma assemble_needs_an_origin_witness :
  assemble [label_statement "A"; fill_statement 0; end_statement] ∅ = Raise AssertionError.
Proof. apply assemble_needs_an_origin. repeat constructor. Defined.

(** X23. The two passes agree on instructions: whenever pass 2 assembles
    an instruction statement it emits exactly one word, the size pass 1
    counts for it. *)
Theorem instruction_is_one_word (statement : Statement.t) (symtable : gmap string Z)
    (pc : Z) (result : option (list Z)) :
  Statement.statement_type statement = "INSTRUCTION" ->
  assemble_statement statement symtable pc = Ok result ->
  (exists word, result = Some [word]) /\ size_of_ins statement = Ok (Some 1).
Proof.
  intros Hty. unfold assemble_statement, size_of_ins. rewrite Hty.
  cbn [String.eqb Ascii.eqb Bool.eqb].
  destruct (getattr "instruction" (Statement.instruction statement)) as [insname|e];
    cbn [bind]; [|discriminate].
  match goal with
  | |- bind ?m _ = _ -> _ => destruct m as [bmin|e]; cbn [bind]; [|discriminate]
  end.
  intros [= <-]. split; [eexists|]; reflexivity.
Qed.

Lemma instruction_is_one_word_witness :
  (exists word, Some [49600] = Some [word]) /\ size_of_ins ret_statement = Ok (Some 1).
Proof.
  apply (instruction_is_one_word ret_statement ∅ 12289 (Some [49600])); reflexivity.
Defined.

(** * Properties of the output stage *)

Lemma digit_char_facts (d : Z) :
  0 <= d < 16 ->
  digit_value (digit_char d) = Some d
  /\ digit_char d <> "-"%char /\ digit_char d <> "+"%char.
Proof.
  intros H.
  assert (Hd : d = 0 \/ d = 1 \/ d = 2 \/ d = 3 \/ d = 4 \/ d = 5 \/ d = 6 \/ d = 7
               \/ d = 8 \/ d = 9 \/ d = 10 \/ d = 11 \/ d = 12 \/ d = 13 \/ d = 14 \/ d = 15)
    by lia.
  repeat (destruct Hd as [->|Hd]); try subst d;
    (split; [reflexivity | split; discriminate]).
Qed.

Section Digits.

Variable base : Z.
Hypothesis base_range : 2 <= base <= 16.

Lemma parse_digits_digit (d : Z) (rest : string) (acc : Z) :
  0 <= d < base ->
  parse_digits base (String (digit_char d) rest) acc = parse_digits base rest (acc * base + d).
Proof.
  intros H. cbn [parse_digits].
  destruct (digit_char_facts d) as [-> _]; [lia|].
  replace (d <? base) with true by (symmetry; apply Z.ltb_lt; lia). reflexivity.
Qed.

Lemma digits_loop_value (fuel : nat) (n : Z) (acc : string) :
  0 <= n < base ^ Z.of_nat fuel ->
  parse_digits base (digits_loop fuel base n acc) 0 = parse_digits base acc n.
Proof.
  revert n acc. induction fuel as [|fuel IH]; intros n acc H.
  - cbn [digits_loop]. change (base ^ Z.of_nat 0) with 1 in H.
    replace n with 0 by lia. reflexivity.
  - cbn [digits_loop].
    assert (Hmod : 0 <= n mod base < base) by (apply Z.mod_pos_bound; lia).
    pose proof (Z.div_mod n base ltac:(lia)) as Hdm.
    destruct (Z.eqb_spec (n / base) 0) as [E|E].
    + rewrite parse_digits_digit by exact Hmod. f_equal. rewrite E in Hdm. lia.
    + rewrite IH.
      * rewrite parse_digits_digit by exact Hmod. f_equal. lia.
      * rewrite Nat2Z.inj_succ, Z.pow_succ_r in H by lia.
        split; [apply Z.div_pos; lia|]. apply Z.div_lt_upper_bound; lia.
Qed.

Lemma digits_value (n : Z) :
  0 <= n -> parse_digits base (digits base n) 0 = Some n.
Proof.
  intros H. unfold digits. rewrite digits_loop_value; [reflexivity|].
  split; [exact H|].
  rewrite Nat2Z.inj_succ, Z2Nat.id by apply Z.log2_nonneg.
  destruct (Z.eq_dec n 0) as [->|Hn].
  - pose proof (Z.log2_nonneg 0). apply Z.pow_pos_nonneg; lia.
  - apply Z.lt_le_trans with (2 ^ Z.succ (Z.log2 n)).
    + apply Z.log2_spec. lia.
    + apply Z.pow_le_mono_l. lia.
Qed.

Lemma digits_loop_head (fuel : nat) (n : Z) (acc : string) :
  0 <= n ->
  exists d rest, 0 <= d < base /\ digits_loop (S fuel) base n acc = String (digit_char d) rest.
Proof.
  revert n acc. induction fuel as [|fuel IH]; intros n acc H.
  - cbn [digits_loop]. exists (n mod base), acc.
    split; [apply Z.mod_pos_bound; lia|]. destruct (n / base =? 0); reflexivity.
  - change (digits_loop (S (S fuel)) base n acc)
      with (if n / base =? 0 then String (digit_char (n mod base)) acc
            else digits_loop (S fuel) base (n / base) (String (digit_char (n mod base)) acc)).
    destruct (n / base =? 0).
    + exists (n mod base), acc. split; [apply Z.mod_pos_bound; lia | reflexivity].
    + apply IH. apply Z.div_pos; lia.
Qed.

Lemma zeros_value (k : nat) (s : string) :
  parse_digits base (zeros k +:+ s) 0 = parse_digits base s 0.
Proof.
  induction k as [|k IH]; [reflexivity|].
  cbn [zeros]. rewrite app_cons. change "0"%char with (digit_char 0).
  rewrite parse_digits_digit by lia. exact IH.
Qed.

Lemma py_int_unsigned (c : ascii) (rest : string) (v : Z) :
  c <> "-"%char -> c <> "+"%char ->
  parse_digits base (String c rest) 0 = Some v ->
  py_int (String c rest) base = Ok v.
Proof.
  intros Hm Hp Hv. unfold py_int.
  destruct c as [[] [] [] [] [] [] [] []];
    try (exfalso; apply Hm; reflexivity); try (exfalso; apply Hp; reflexivity).
  all: cbv beta iota zeta; rewrite Hv, Z.mul_1_l; reflexivity.
Qed.

Lemma py_int_padded (k : nat) (n : Z) :
  0 <= n ->
  py_int (zeros k +:+ digits base n) base = Ok n
  /\ py_int (String "-" (zeros k +:+ digits base n)) base = Ok (- n).
Proof.
  intros H.
  assert (Hv : parse_digits base (zeros k +:+ digits base n) 0 = Some n)
    by (rewrite zeros_value; apply digits_value, H).
  destruct (digits_loop_head (Z.to_nat (Z.log2 n)) n EmptyString H)
    as (d & rest & Hd & Hhead).
  fold (digits base n) in Hhead.
  assert (Hshape : exists c rest', zeros k +:+ digits base n = String c rest'
                                   /\ c <> "-"%char /\ c <> "+"%char).
  { destruct k as [|k].
    - rewrite Hhead. exists (digit_char d), rest. split; [reflexivity|].
      apply digit_char_facts. lia.
    - cbn [zeros]. rewrite app_cons. eexists _, _. split; [reflexivity|].
      split; discriminate. }
  destruct Hshape as (c & rest' & Hs & Hm & Hp). rewrite Hs in *.
  split; [apply py_int_unsigned; assumption|].
  unfold py_int. cbv beta iota zeta. rewrite Hv. f_equal; lia.
Qed.

(** Reading back what [format] wrote, in the same base. *)
Lemma format_int_round_trip (width : nat) (n : Z) :
  py_int (format_int base width n) base = Ok n.
Proof.
  unfold format_int. destruct (Z.ltb_spec n 0) as [H|H].
  - change ("-" +:+ ?s) with (String "-" s).
    destruct (py_int_padded (width - String.length "-" - String.length (digits base (Z.abs n)))
                (Z.abs n) ltac:(lia)) as [_ ->].
    f_equal. lia.
  - rewrite app_empty_l.
    destruct (py_int_padded
                (width - String.length EmptyString - String.length (digits base (Z.abs n)))
                (Z.abs n) ltac:(lia)) as [-> _].
    f_equal. lia.
Qed.

Lemma digits_loop_length (fuel k : nat) (n : Z) (acc : string) :
  (1 <= k)%nat -> 0 <= n < base ^ Z.of_nat k ->
  (String.length (digits_loop (S fuel) base n acc) <= k + String.length acc)%nat.
Proof.
  revert k n acc. induction fuel as [|fuel IH]; intros k n acc Hk H.
  - cbn [digits_loop]. destruct (n / base =? 0); cbn [String.length]; lia.
  - change (digits_loop (S (S fuel)) base n acc)
      with (if n / base =? 0 then String (digit_char (n mod base)) acc
            else digits_loop (S fuel) base (n / base) (String (digit_char (n mod base)) acc)).
    destruct (Z.eqb_spec (n / base) 0) as [E|E]; [cbn [String.length]; lia|].
    destruct k as [|[|k]]; [lia| |].
    + exfalso. apply E. apply Z.div_small. change (Z.of_nat 1) with 1 in H. lia.
    + specialize (IH (S k) (n / base) (String (digit_char (n mod base)) acc)).
      cbn [String.length] in IH.
      assert (Hq : 0 <= n / base < base ^ Z.of_nat (S k)).
      { rewrite (Nat2Z.inj_succ (S k)), Z.pow_succ_r in H by lia.
        split; [apply Z.div_pos; lia|]. apply Z.div_lt_upper_bound; lia. }
      specialize (IH ltac:(lia) Hq). lia.
Qed.

Lemma zeros_length (k : nat) : String.length (zeros k) = k.
Proof. induction k as [|k IH]; [reflexivity|]. cbn. rewrite IH. reflexivity. Qed.

Lemma format_int_width (width : nat) (n : Z) :
  (1 <= width)%nat -> 0 <= n < base ^ Z.of_nat width ->
  String.length (format_int base width n) = width.
Proof.
  intros Hw H. unfold format_int.
  replace (n <? 0) with false by (symmetry; apply Z.ltb_ge; lia).
  rewrite app_empty_l, app_length_str, zeros_length.
  pose proof (digits_loop_length (Z.to_nat (Z.log2 (Z.abs n))) width (Z.abs n) EmptyString Hw)
    as Hl.
  fold (digits base (Z.abs n)) in Hl. cbn [String.length] in *.
  rewrite Z.abs_eq in Hl by lia. rewrite Z.abs_eq by lia.
  specialize (Hl H). lia.
Qed.

End Digits.

(** X24. The text lines of the output can be read back: the 16 binary
    digits of the BINASCII format and the hex digits of the HEX format give
    the word again under [int(..., 2)] and [int(..., 16)], for every
    integer, negative or wider than 16 bits included. *)
Theorem output_lines_read_back (n : Z) :
  py_int (format_int 2 16 n) 2 = Ok n /\ py_int (format_int 16 4 n) 16 = Ok n.
Proof. split; apply format_int_round_trip; lia. Qed.

(** X25. For 16-bit words each line of the text formats has a fixed
    width: 16 digits and the newline in the BINASCII format, [0x], 4 digits
    and the newline in the HEX format. *)
Theorem output_lines_have_fixed_width (machine_instructions : list Z) :
  Forall (fun bmin : Z => 0 <= bmin < 65536) machine_instructions ->
  String.length (write_binascii machine_instructions) = (17 * length machine_instructions)%nat
  /\ String.length (write_hex machine_instructions) = (7 * length machine_instructions)%nat.
Proof.
  induction 1 as [|bmin rest Hb _ [IH2 IH16]]; [split; reflexivity|].
  cbn [write_binascii write_hex length].
  rewrite !app_length_str, IH2, IH16.
  rewrite (format_int_width 2 ltac:(lia) 16 bmin) by (lia || exact Hb).
  rewrite (format_int_width 16 ltac:(lia) 4 bmin) by (lia || exact Hb).
  cbn [String.length newline]. lia.
Qed.

Lemma output_lines_have_fixed_width_witness :
  String.length (write_binascii [12288; 61477]) = 34%nat
  /\ String.length (write_hex [12288; 61477]) = 14%nat.
Proof. apply (output_lines_have_fixed_width [12288; 61477]). repeat constructor; lia. Defined.



(** * Properties of the command line *)

Lemma fold_left_invariant {A B : Type} (P : A -> Prop) (f : A -> B -> A) (l : list B) (a : A) :
  (forall x b, P x -> P (f x b)) -> P a -> P (fold_left f l a).
Proof.
  intros Hf. revert a. induction l as [|b l IH]; intros a Ha; [exact Ha|].
  cbn [fold_left]. apply IH, Hf, Ha.
Qed.

Lemma parse_arg_format (job : Job.t) (arg : string) :
  (forall f, Job.output_format job = Some f -> In f output_formats) ->
  forall f, Job.output_format (parse_arg job arg) = Some f -> In f output_formats.
Proof.
  intros H f. unfold parse_arg.
  repeat match goal with
  | |- context [if ?b then _ else _] => destruct b
  end; cbn [Job.output_format]; try apply H; intros [= <-]; cbn; tauto.
Qed.

(** X27. Whatever the arguments, [parse_args] leaves one of the three
    output formats in the job, and an output file exactly when an input
    file is named and the format is BINARY: the text formats go to the
    standard output. *)
Theorem parse_args_settles_the_output (args : list string) :
  (exists f, Job.output_format (parse_args args) = Some f /\ In f output_formats)
  /\ (is_Some (Job.outfile (parse_args args))
      <-> is_Some (Job.infile (parse_args args))
          /\ Job.output_format (parse_args args) = Some "BINARY").
Proof.
  unfold parse_args.
  set (job := fold_left parse_arg args (Job.Build "MODE_ALL" None false None None)).
  assert (Hf : forall f, Job.output_format job = Some f -> In f output_formats).
  { subst job. apply (fold_left_invariant
                        (fun j => forall f, Job.output_format j = Some f -> In f output_formats)).
    - intros x b Hx. apply parse_arg_format, Hx.
    - cbn. discriminate. }
  destruct (Job.infile job) as [infile|], (Job.output_format job) as [format|] eqn:Ef.
  - specialize (Hf format eq_refl).
    destruct (String.eqb_spec format "BINARY") as [->|Hne]; cbn.
    + split; [eauto|]. split; [auto | intros _; eexists; reflexivity].
    + split; [eauto|]. split; [intros [x Hx]; discriminate | intros [_ [= E]]; contradiction].
  - cbn. split; [eexists; split; [reflexivity | tauto]|].
    split; [auto | intros _; eexists; reflexivity].
  - specialize (Hf format eq_refl). cbn. split; [eauto|].
    split; [intros [x Hx]; discriminate | intros [[x Hx] _]; discriminate].
  - cbn. split; [eexists; split; [reflexivity | tauto]|].
    split; [intros [x Hx]; discriminate | intros [[x Hx] _]; discriminate].
Qed.

Lemma before_last_dot_none (s : string) :
  has_dot s = false -> before_last_dot s = None.
Proof.
  unfold has_dot. induction s as [|c s IH]; [reflexivity|].
  cbn [contains startswith before_last_dot]. intros H.
  apply orb_false_elim in H as [Hc Hs]. rewrite IH by exact Hs.
  rewrite andb_true_r in Hc. rewrite Ascii.eqb_sym, Hc. reflexivity.
Qed.

Lemma before_last_dot_app (stem ext : string) :
  has_dot ext = false -> before_last_dot (stem +:+ "." +:+ ext) = Some stem.
Proof.
  intros H. induction stem as [|c stem IH].
  - rewrite app_empty_l. change ("." +:+ ext) with (String "." ext).
    cbn [before_last_dot]. rewrite before_last_dot_none by exact H. reflexivity.
  - rewrite app_cons. cbn [before_last_dot]. rewrite IH. reflexivity.
Qed.

Lemma has_dot_app (stem ext : string) : has_dot (stem +:+ "." +:+ ext) = true.
Proof.
  unfold has_dot. induction stem as [|c stem IH].
  - reflexivity.
  - rewrite app_cons. cbn [contains]. rewrite IH. apply orb_true_r.
Qed.

(** X28. The name of the output file: for an input file named
    [stem.ext], alone on the command line, the job is the whole pipeline in
    the BINARY format and the output file is [stem.bin], the extension being
    what follows the last dot.  An input file that already ends in [.bin]
    is therefore its own output file. *)
Theorem output_file_name (stem ext : string) :
  has_dot ext = false ->
  parse_args [stem +:+ "." +:+ ext]
    = Job.Build "MODE_ALL" (Some (stem +:+ "." +:+ ext)) false (Some "BINARY")
        (Some (stem +:+ ".bin")).
Proof.
  intros H.
  assert (Harg : parse_arg (Job.Build "MODE_ALL" None false None None) (stem +:+ "." +:+ ext)
                 = Job.Build "MODE_ALL" (Some (stem +:+ "." +:+ ext)) false None None).
  { unfold parse_arg.
    assert (Hne : forall flag, has_dot flag = false ->
                               String.eqb (stem +:+ "." +:+ ext) flag = false).
    { intros flag Hflag. apply String.eqb_neq. intros E.
      pose proof (has_dot_app stem ext) as Hd. rewrite E in Hd. congruence. }
    cbn [str_in]. rewrite !Hne by reflexivity. reflexivity. }
  unfold parse_args. cbn [fold_left]. rewrite Harg. cbn [Job.infile Job.output_format].
  unfold rsplit_dot_head. rewrite before_last_dot_app by exact H. reflexivity.
Qed.

Lemma output_file_name_witness :
  parse_args ["prog.v2" +:+ "." +:+ "bin"]
    = Job.Build "MODE_ALL" (Some ("prog.v2" +:+ "." +:+ "bin")) false (Some "BINARY")
        (Some ("prog.v2" +:+ ".bin")).
Proof. apply output_file_name. reflexivity. Defined.

(** * Hex tokens that are accepted *)

(** X29. Every HEX token of a line the lexer accepts carries the unsigned
    value of its digit string, whatever its leading zeros, and its digits
    are not all zeros. *)
Theorem hex_tokens_carry_their_value (literal_eval : string -> Result string)
    (line : string) (tokens : list Token.t) :
  lex_line literal_eval line = Ok tokens ->
  Forall (fun token =>
            Token.token_type token = "HEX" ->
            Token.value token = Some (VInt (hex_value (hex_digits (Token.text token)) 0))
            /\ str_forall (Ascii.eqb "0") (hex_digits (Token.text token)) = false)
         tokens.
Proof.
  intros Hlex.
  assert (H : Forall (hex_made literal_eval) tokens)
    by (apply (lex_loop_hex_made literal_eval line line 0 [] tokens);
        [constructor | exact Hlex]).
  eapply Forall_impl; [exact H|].
  intros token Hmade Hty. destruct (Hmade Hty) as (s & Hm & Hk).
  rewrite (hex_token_value literal_eval s _ Hm) in Hk.
  destruct (str_forall (Ascii.eqb "0") (hex_digits (Token.text token)));
    [discriminate|].
  injection Hk as Hk. rewrite <- Hk at 1. split; reflexivity.
Qed.

Lemma hex_tokens_carry_their_value_witness :
  Forall (fun token =>
            Token.token_type token = "HEX" ->
            Token.value token = Some (VInt (hex_value (hex_digits (Token.text token)) 0))
            /\ str_forall (Ascii.eqb "0") (hex_digits (Token.text token)) = false)
         [tok "DIRECTIVE" ".ORIG" None; tok "WS" " " None;
          tok "HEX" "x000F" (Some (VInt 15))].
Proof.
  apply (hex_tokens_carry_their_value unquote ".ORIG x000F"). reflexivity.
Defined.
